(** * html-tool: extraction of an HTML document from agent output,
      filename slugging and the command's control flow

    A shallow embedding of [amplifier_collection_html_tools/cli.py].
    Python strings are sequences of Unicode code points; the [str] methods
    and the fragment of [re] the program uses are written out below, then
    the program's own functions, then the properties. *)

From Stdlib Require Import List NArith ZArith Lia Bool String Ascii Arith.
From Stdlib Require Import DecimalString.
Import ListNotations.

(* ================================================================== *)
(** ** Python strings *)
(* ================================================================== *)

Module Py.

(** A character is a Unicode code point, a string a sequence of them. *)
Definition char := N.
Definition str := list char.

(** An ASCII literal of the source as a Python string. *)
Definition lit (s : string) : str := map N_of_ascii (list_ascii_of_string s).
Arguments lit s%_string.

(** The newline character, written [\n] in the source. *)
Definition nl : char := 10%N.

(** [len(s)] *)
Definition len (s : str) : Z := Z.of_nat (List.length s).

(** [c.isspace()]: the code points CPython treats as whitespace
    (U+0009..U+000D, U+001C..U+0020, U+0085, U+00A0, U+1680,
    U+2000..U+200A, U+2028, U+2029, U+202F, U+205F, U+3000). *)
Definition isspace (c : char) : bool :=
  ((9 <=? c) && (c <=? 13) || (28 <=? c) && (c <=? 32)
   || (c =? 133) || (c =? 160) || (c =? 5760)
   || (8192 <=? c) && (c <=? 8202)
   || (c =? 8232) || (c =? 8233) || (c =? 8239) || (c =? 8287)
   || (c =? 12288))%N.

(** Membership of a character in a string, as in [c in chars]. *)
Definition mem (c : char) (chars : str) : bool := existsb (N.eqb c) chars.

(** Dropping the characters that satisfy [f] from the left end, from the
    right end, from both. *)
Fixpoint lstrip_by (f : char -> bool) (s : str) : str :=
  match s with
  | [] => []
  | c :: s' => if f c then lstrip_by f s' else s
  end.

Definition rstrip_by (f : char -> bool) (s : str) : str :=
  rev (lstrip_by f (rev s)).

Definition strip_by (f : char -> bool) (s : str) : str :=
  rstrip_by f (lstrip_by f s).

(** [s.strip()] *)
Definition strip (s : str) : str := strip_by isspace s.

(** [s.strip(chars)] *)
Definition strip_chars (chars : str) (s : str) : str :=
  strip_by (fun c => mem c chars) s.

(** [s.split()]: maximal runs of characters that are not whitespace.
    [cur] holds the run being read, last character first. *)
Fixpoint split_run (s : str) (cur : str) : list str :=
  match s with
  | [] => match cur with [] => [] | _ :: _ => [rev cur] end
  | c :: s' =>
      if isspace c then
        match cur with
        | [] => split_run s' []
        | _ :: _ => rev cur :: split_run s' []
        end
      else split_run s' (c :: cur)
  end.

Definition split (s : str) : list str := split_run s [].

(** [sep.join(l)] *)
Fixpoint join (sep : str) (l : list str) : str :=
  match l with
  | [] => []
  | [x] => x
  | x :: l' => x ++ sep ++ join sep l'
  end.

(** [s.startswith(p)] *)
Fixpoint startswith (p s : str) : bool :=
  match p, s with
  | [], _ => true
  | _ :: _, [] => false
  | a :: p', b :: s' => (a =? b)%N && startswith p' s'
  end.

(** [sub in s] *)
Fixpoint contains (sub s : str) : bool :=
  startswith sub s ||
  match s with
  | [] => false
  | _ :: s' => contains sub s'
  end.

(** [s.find(sub)]: the lowest index at which [sub] occurs, or -1.
    [i] is the index of the head of [s] in the whole string. *)
Fixpoint find_from (sub s : str) (i : Z) : Z :=
  if startswith sub s then i
  else match s with
       | [] => -1
       | _ :: s' => find_from sub s' (i + 1)
       end.

Definition find (sub s : str) : Z := find_from sub s 0.

(** [s.rfind(sub)]: the highest index at which [sub] occurs, or -1. *)
Fixpoint rfind_from (sub s : str) (i : Z) : Z :=
  match s with
  | [] => if startswith sub [] then i else -1
  | _ :: s' =>
      let r := rfind_from sub s' (i + 1) in
      if (r =? -1)%Z then (if startswith sub s then i else -1) else r
  end.

Definition rfind (sub s : str) : Z := rfind_from sub s 0.

(** [s[i:j]]: a negative index counts from the end, and both ends are
    clamped to the string. *)
Definition clamp_index (n i : Z) : Z :=
  if (i <? 0)%Z then Z.max 0 (i + n) else Z.min i n.

Definition slice (s : str) (i j : Z) : str :=
  let a := clamp_index (len s) i in
  let b := clamp_index (len s) j in
  firstn (Z.to_nat (b - a)) (skipn (Z.to_nat a) s).

(** [str(n)] for a natural number. *)
Definition str_of_nat (n : nat) : str :=
  lit (NilZero.string_of_uint (Nat.to_uint n)).

End Py.

(* ================================================================== *)
(** ** The fragment of [re] the program uses *)
(* ================================================================== *)

Module Re.
Import Py.

(** The three patterns of the program are made of literal characters,
    the lazy [.*?] and one capturing group. *)
Inductive item :=
| Chr (c : char)
| LazyDotStar
| GroupOpen
| GroupClose.

Definition regex := list item.

Definition chars (s : str) : regex := map Chr s.

Record flags := { DOTALL : bool; IGNORECASE : bool }.

(** Case folding of a letter of the patterns.  The pattern letters are
    among d o c t y p e h m l, whose only case partners are their ASCII
    capitals, so folding A..Z is what IGNORECASE amounts to here. *)
Definition fold (c : char) : char :=
  if ((65 <=? c) && (c <=? 90))%N then (c + 32)%N else c.

Definition chr_matches (fl : flags) (c x : char) : bool :=
  if IGNORECASE fl then (fold c =? fold x)%N else (c =? x)%N.

Definition dot_matches (fl : flags) (x : char) : bool :=
  if DOTALL fl then true else negb (x =? nl)%N.

(** What group 1 has captured so far, last character first, and whether
    the group is open. *)
Record capture := { recording : bool; grp : str }.

Definition consume (x : char) (st : capture) : capture :=
  if recording st then {| recording := true; grp := x :: grp st |} else st.

(** [run fl r s st] matches [r] at the head of [s] and returns group 1.
    [.*?] first tries the rest of the pattern where it stands and takes
    one more character only when that fails. *)
Fixpoint run (fl : flags) (r : regex) (s : str) (st : capture) {struct r}
  : option str :=
  match r with
  | [] => Some (rev (grp st))
  | Chr c :: r' =>
      match s with
      | [] => None
      | x :: s' =>
          if chr_matches fl c x then run fl r' s' (consume x st) else None
      end
  | GroupOpen :: r' => run fl r' s {| recording := true; grp := grp st |}
  | GroupClose :: r' => run fl r' s {| recording := false; grp := grp st |}
  | LazyDotStar :: r' =>
      (fix scan (s : str) (st : capture) {struct s} : option str :=
         match run fl r' s st with
         | Some g => Some g
         | None =>
             match s with
             | [] => None
             | x :: s' =>
                 if dot_matches fl x then scan s' (consume x st) else None
             end
         end) s st
  end.

(** [re.search(r, s, flags).group(1)], [None] when there is no match:
    the leftmost position at which the pattern matches. *)
Fixpoint search (fl : flags) (r : regex) (s : str) : option str :=
  match run fl r s {| recording := false; grp := [] |} with
  | Some g => Some g
  | None =>
      match s with
      | [] => None
      | _ :: s' => search fl r s'
      end
  end.

End Re.

(* ================================================================== *)
(** ** The HTML extractor *)
(* ================================================================== *)

Import Py.

Definition FENCE : str := lit "```".
Definition DOCTYPE : str := lit "<!DOCTYPE html>".
Definition END_HTML : str := lit "</html>".

(** [r'```html\n(.*?)\n```'] *)
Definition pattern_html_fence : Re.regex :=
  Re.chars (lit "```html" ++ [nl])
  ++ [Re.GroupOpen; Re.LazyDotStar; Re.GroupClose]
  ++ Re.chars (nl :: FENCE).

(** [r'```\n(<!DOCTYPE html>.*?)\n```'] *)
Definition pattern_plain_fence : Re.regex :=
  Re.chars (FENCE ++ [nl])
  ++ [Re.GroupOpen] ++ Re.chars DOCTYPE ++ [Re.LazyDotStar; Re.GroupClose]
  ++ Re.chars (nl :: FENCE).

(** [r'(<!DOCTYPE html>.*?</html>)'] *)
Definition pattern_bare : Re.regex :=
  [Re.GroupOpen] ++ Re.chars DOCTYPE ++ [Re.LazyDotStar]
  ++ Re.chars END_HTML ++ [Re.GroupClose].

Definition patterns : list Re.regex :=
  [pattern_html_fence; pattern_plain_fence; pattern_bare].

(** [re.DOTALL | re.IGNORECASE] *)
Definition search_flags : Re.flags :=
  {| Re.DOTALL := true; Re.IGNORECASE := true |}.

(** The loop over the patterns: the first one that matches decides. *)
Fixpoint first_match (ps : list Re.regex) (output : str) : option str :=
  match ps with
  | [] => None
  | pattern :: ps' =>
      match Re.search search_flags pattern output with
      | Some g => Some (strip g)
      | None => first_match ps' output
      end
  end.

(** The code after the loop. *)
Definition whole_output (output : str) : option str :=
  if contains DOCTYPE output then
    let start := find DOCTYPE output in
    let end_ := (rfind END_HTML output + 7)%Z in
    if negb (start =? -1)%Z && (end_ >? start)%Z
    then Some (strip (slice output start end_))
    else None
  else None.

Definition extract_html_from_output (output : str) : option str :=
  match first_match patterns output with
  | Some html => Some html
  | None => whole_output output
  end.

(* ================================================================== *)
(** ** The filename generator *)
(* ================================================================== *)

(** [str.lower] and [str.isalnum] read the Unicode character database of
    the Python runtime, which is no part of the program: they are taken
    as given.  [lower] acts on whole strings (the lower case of a capital
    sigma depends on its place in the word), [isalnum_char] on one
    character. *)
Record unicode := {
  lower : str -> str;
  isalnum_char : char -> bool
}.

(** The database on Basic Latin (code points below 128), the range of
    the examples in this file. *)
Definition basic_latin : unicode := {|
  lower := map Re.fold;
  isalnum_char := fun c =>
    ((48 <=? c) && (c <=? 57) || (65 <=? c) && (c <=? 90)
     || (97 <=? c) && (c <=? 122))%N
|}.

Section Filename.

Variable U : unicode.

(** [s.isalnum()]: a non-empty string of alphanumeric characters. *)
Definition isalnum (s : str) : bool :=
  match s with
  | [] => false
  | _ :: _ => forallb (isalnum_char U) s
  end.

Definition HYPHEN : char := 45%N.

(** The condition of the generator expression:
    [word.isalnum() or '-' in word]. *)
Definition keeps (word : str) : bool := isalnum word || mem HYPHEN word.

Definition generate_filename (description : str) : str :=
  let words := firstn 4 (split (lower U description)) in
  let name :=
    join (lit "-") (map (strip_chars (lit ".,!?;:")) (filter keeps words)) in
  name ++ lit ".html".

End Filename.

(* ================================================================== *)
(** ** The command *)
(* ================================================================== *)

(** The parsed command line. *)
Record args := {
  description : list str;
  output : option str;
  preview : bool;
  verbose : bool
}.

(** How [subprocess.run(..., check=True)] ends. *)
Inductive completed :=
| Completed (stdout : str)
| CalledProcessError (stderr : str)
| FileNotFoundError.

(** What the program is run in: the external agent, [pathlib] and the
    file system.  [write_bytes path data] is [None] when the file was
    written and the text of the exception otherwise. *)
Record env := {
  subprocess_run : list str -> completed;
  Path : str -> str;
  absolute : str -> str;
  write_bytes : str -> list N -> option str
}.

(** What the program leaves behind: the lines printed on the two
    streams, the files written and the URLs handed to the browser, each
    list oldest first. *)
Record world := {
  stdout_lines : list str;
  stderr_lines : list str;
  files : list (str * list N);
  browser : list str
}.

Definition empty_world : world :=
  {| stdout_lines := []; stderr_lines := []; files := []; browser := [] |}.

(** A step of the program either goes on with a value or leaves through
    [sys.exit] with a status. *)
Inductive outcome (A : Type) :=
| Value (a : A)
| Exit (status : Z).
Arguments Value {A} a.
Arguments Exit {A} status.

Definition M (A : Type) : Type := world -> outcome A * world.

Definition ret {A} (a : A) : M A := fun w => (Value a, w).

Definition bind {A B} (m : M A) (k : A -> M B) : M B :=
  fun w =>
    match m w with
    | (Value a, w') => k a w'
    | (Exit status, w') => (Exit status, w')
    end.

Notation "x <- m ;; k" := (bind m (fun x => k))
  (at level 61, m at next level, right associativity).
Notation "m ;; k" := (bind m (fun _ => k))
  (at level 61, right associativity).

(** [print(s)] and [print(s, file=sys.stderr)] *)
Definition print (s : str) : M unit := fun w =>
  (Value tt, {| stdout_lines := stdout_lines w ++ [s];
                stderr_lines := stderr_lines w;
                files := files w; browser := browser w |}).

Definition eprint (s : str) : M unit := fun w =>
  (Value tt, {| stdout_lines := stdout_lines w;
                stderr_lines := stderr_lines w ++ [s];
                files := files w; browser := browser w |}).

(** [sys.exit(status)] *)
Definition sys_exit {A} (status : Z) : M A := fun w => (Exit status, w).

(** [webbrowser.open(url)] *)
Definition webbrowser_open (url : str) : M unit := fun w =>
  (Value tt, {| stdout_lines := stdout_lines w;
                stderr_lines := stderr_lines w;
                files := files w; browser := browser w ++ [url] |}).

(** UTF-8: one to four bytes for a code point. *)
Definition utf8_char (c : char) : list N :=
  (if c <? 128 then [c]
   else if c <? 2048 then [192 + c / 64; 128 + c mod 64]
   else if c <? 65536 then
     [224 + c / 4096; 128 + (c / 64) mod 64; 128 + c mod 64]
   else
     [240 + c / 262144; 128 + (c / 4096) mod 64;
      128 + (c / 64) mod 64; 128 + c mod 64])%N.

Definition utf8 (s : str) : list N := flat_map utf8_char s.

(** The symbols of the messages. *)
Definition CROSS_MARK : str := [10060%N].
Definition ROBOT : str := [129302%N].
Definition HOURGLASS : str := [9203%N].
Definition CHECK_MARK : str := [9989%N].
Definition GLOBE : str := [127760%N].
Definition CLIPBOARD : str := [128203%N].
Definition BULLET : str := [8226%N].

(** [x or y] on strings, [x] possibly [None]. *)
Definition py_or (x : option str) (y : str) : str :=
  match x with
  | Some ((_ :: _) as v) => v
  | _ => y
  end.

(** [not html] *)
Definition py_not (x : option str) : bool :=
  match x with
  | Some (_ :: _) => false
  | _ => true
  end.

Section Command.

Variable U : unicode.
Variable E : env.

(** [output_path.write_text(html, encoding='utf-8')]: [Some e] is the
    exception raised. *)
Definition write_text (path : str) (data : str)
  : world -> option str * world :=
  fun w =>
    match write_bytes E path (utf8 data) with
    | None =>
        (None, {| stdout_lines := stdout_lines w;
                  stderr_lines := stderr_lines w;
                  files := files w ++ [(path, utf8 data)];
                  browser := browser w |})
    | Some e => (Some e, w)
    end.

(** The command line of the agent. *)
Definition agent_command (description : str) : list str :=
  [lit "amplifier"; lit "run"; lit "--agent"; lit "html-tool-builder";
   description].

Definition invoke_agent (description : str) : M str :=
  match subprocess_run E (agent_command description) with
  | Completed stdout => ret stdout
  | CalledProcessError stderr =>
      eprint (CROSS_MARK ++ lit " Error calling amplifier agent: " ++ stderr) ;;
      sys_exit 1
  | FileNotFoundError =>
      eprint (CROSS_MARK
              ++ lit " Amplifier not found. Please install it first:") ;;
      eprint
        (lit "   uv tool install git+https://github.com/microsoft/amplifier") ;;
      sys_exit 1
  end.

(** The file name the document goes to:
    [args.output or generate_filename(description)]. *)
Definition output_file (a : args) : str :=
  py_or (output a) (generate_filename U (join (lit " ") (description a))).

Definition main (a : args) : M unit :=
  let description := join (lit " ") (description a) in
  print (ROBOT ++ lit " Building HTML tool: " ++ description) ;;
  print [] ;;
  print (HOURGLASS ++ lit " Calling html-tool-builder agent...") ;;
  output <- invoke_agent description ;;
  (if verbose a then
     print (nl :: lit "--- Full Agent Output ---") ;;
     print output ;;
     print (lit "--- End Output ---" ++ [nl])
   else ret tt) ;;
  let html := extract_html_from_output output in
  if py_not html then
    eprint (CROSS_MARK ++ lit " Failed to extract HTML from agent output.") ;;
    eprint (lit "Run with --verbose to see full output.") ;;
    sys_exit 1
  else
    let html := match html with Some h => h | None => [] end in
    let output_file := output_file a in
    let output_path := Path E output_file in
    (fun w =>
       match write_text output_path html w with
       | (None, w') =>
           (print (CHECK_MARK ++ lit " Generated: "
                   ++ absolute E output_path) ;;
            print (lit "   Size: " ++ str_of_nat (List.length html)
                   ++ lit " bytes")) w'
       | (Some e, w') =>
           (eprint (CROSS_MARK ++ lit " Failed to save file: " ++ e) ;;
            sys_exit 1) w'
       end) ;;
    (if preview a then
       print (nl :: GLOBE ++ lit " Opening in browser...") ;;
       webbrowser_open (lit "file://" ++ absolute E output_path)
     else ret tt) ;;
    print (nl :: CLIPBOARD ++ lit " Next steps:") ;;
    print (lit "   " ++ BULLET ++ lit " Open: " ++ output_path) ;;
    print (lit "   " ++ BULLET ++ lit " Test: open " ++ output_path) ;;
    (if negb (preview a) then
       print (lit "   " ++ BULLET ++ lit " Preview: html-tool " ++ [34%N]
              ++ description ++ [34%N] ++ lit " --preview")
     else ret tt) ;;
    print (lit "   " ++ BULLET
           ++ lit " Deploy: Commit to GitHub repo with Pages enabled") ;;
    print [].

(** The two lines the program prints when it finds no document. *)
Definition extraction_failure_message : list str :=
  [CROSS_MARK ++ lit " Failed to extract HTML from agent output.";
   lit "Run with --verbose to see full output."].

(** The exit status of the process and what it left behind. *)
Definition run_main (a : args) : Z * world :=
  match main a empty_world with
  | (Value _, w) => (0%Z, w)
  | (Exit status, w) => (status, w)
  end.

End Command.

(* ================================================================== *)
(** ** Notions used to state the properties *)
(* ================================================================== *)

(** Two strings that differ at most in the case of their ASCII letters. *)
Definition ci_eq (a b : str) : Prop := map Re.fold a = map Re.fold b.

(** A character that is no ASCII letter. *)
Definition nonletter (c : char) : Prop :=
  (c < 65 \/ 90 < c < 97 \/ 122 < c)%N.

(** [sub] occurs in [s] in some letter-casing. *)
Definition ci_contains (sub s : str) : bool :=
  contains (map Re.fold sub) (map Re.fold s).

Definition ci_startswith (p s : str) : bool :=
  startswith (map Re.fold p) (map Re.fold s).

(** The characters a pattern has consumed, as group 1 sees them. *)
Definition consume_all (l : str) (st : Re.capture) : Re.capture :=
  fold_left (fun st x => Re.consume x st) l st.

(** The opening line of a fence labeled as HTML, and the closing line of
    a fence. *)
Definition HTML_FENCE_OPEN : str := lit "```html" ++ [nl].
Definition FENCE_CLOSE : str := nl :: FENCE.

(** [content] is what stands in [output] between the opening line of a
    fence labeled as HTML (in any casing) and a closing fence line. *)
Definition labeled_fence_content (output content : str) : Prop :=
  exists pre opener post,
    output = pre ++ opener ++ content ++ FENCE_CLOSE ++ post
    /\ ci_eq opener HTML_FENCE_OPEN.

(** [span] is a piece of [output] that runs from a doctype token to a
    closing html tag (both in any casing). *)
Definition bare_span (output span : str) : Prop :=
  exists pre d mid e post,
    output = pre ++ span ++ post /\ span = d ++ mid ++ e
    /\ ci_eq d DOCTYPE /\ ci_eq e END_HTML.

(** Two results of a search that agree up to the case of letters. *)
Definition ci_result (a b : option str) : Prop :=
  match a, b with
  | Some x, Some y => ci_eq x y
  | None, None => True
  | _, _ => False
  end.

(** Two states of group 1 that agree up to the case of letters. *)
Definition ci_capture (st st' : Re.capture) : Prop :=
  Re.recording st = Re.recording st' /\ ci_eq (Re.grp st) (Re.grp st').

(** The place of the first and of the last occurrence of [sub] in
    [s]. *)
Fixpoint first_index (sub s : str) : option nat :=
  if startswith sub s then Some 0%nat
  else match s with
       | [] => None
       | _ :: s' => option_map S (first_index sub s')
       end.

Fixpoint last_index (sub s : str) : option nat :=
  match s with
  | [] => if startswith sub [] then Some 0%nat else None
  | _ :: s' =>
      match last_index sub s' with
      | Some j => Some (S j)
      | None => if startswith sub s then Some 0%nat else None
      end
  end.

(** Rule 4 in the words of the specification: the substring from the
    first occurrence of the doctype token to the last occurrence of the
    closing html tag (inclusive), provided the end position is after
    the start; absent otherwise. *)
Definition fallback_as_specified (output : str) : option str :=
  match first_index DOCTYPE output, last_index END_HTML output with
  | Some start, Some last =>
      let end_ := (last + 7)%nat in
      if (start <? end_)%nat
      then Some (firstn (end_ - start) (skipn start output))
      else None
  | _, _ => None
  end.

(** A string of Basic Latin characters, and a database that is right
    on them: lower-casing folds the capitals A..Z, and the alphanumeric
    characters are the digits and the letters. *)
Definition is_ascii (s : str) : Prop := Forall (fun c => (c < 128)%N) s.

Definition right_on_ascii (U : unicode) : Prop :=
  (forall s, is_ascii s -> lower U s = map Re.fold s)
  /\ (forall c, (c < 128)%N -> isalnum_char U c = isalnum_char basic_latin c).

(** The text of a fence labeled as HTML around [body]. *)
Definition fenced (body : str) : str :=
  HTML_FENCE_OPEN ++ body ++ FENCE_CLOSE.

(** [s.split(sep)] for a separator of one character: the pieces of [s]
    between the separators. *)
Fixpoint split_on (sep : char) (s : str) : list str :=
  match s with
  | [] => [[]]
  | c :: s' =>
      match split_on sep s' with
      | [] => [[]]
      | w :: ws => if (c =? sep)%N then [] :: w :: ws else (c :: w) :: ws
      end
  end.

(** An environment for the examples: the agent answers [agent_output],
    a path is kept as it is written and is taken relative to [/work],
    and every write succeeds. *)
Definition quiet_env (agent_output : str) : env := {|
  subprocess_run := fun _ => Completed agent_output;
  Path := fun p => p;
  absolute := fun p => lit "/work/" ++ p;
  write_bytes := fun _ _ => None
|}.

(** An environment in which the agent's command is not installed. *)
Definition missing_agent_env : env := {|
  subprocess_run := fun _ => FileNotFoundError;
  Path := fun p => p;
  absolute := fun p => lit "/work/" ++ p;
  write_bytes := fun _ _ => None
|}.

(** A command line with the description alone. *)
Definition plain_args (words : list str) : args :=
  {| description := words; output := None;
     preview := false; verbose := false |}.

(** An environment in which the agent ends with a non-zero status and
    [stderr] on its error stream. *)
Definition failing_agent_env (stderr : str) : env := {|
  subprocess_run := fun _ => CalledProcessError stderr;
  Path := fun p => p;
  absolute := fun p => lit "/work/" ++ p;
  write_bytes := fun _ _ => None
|}.


(** The command line [a] with [--verbose] set or not, and with
    [--preview] set or not. *)
Definition with_verbose (b : bool) (a : args) : args :=
  {| description := description a; output := output a;
     preview := preview a; verbose := b |}.

Definition with_preview (b : bool) (a : args) : args :=
  {| description := description a; output := output a;
     preview := b; verbose := verbose a |}.

(** The three lines [--verbose] adds around the raw answer of the
    agent. *)
Definition verbose_lines (agent_output : str) : list str :=
  [nl :: lit "--- Full Agent Output ---"; agent_output;
   lit "--- End Output ---" ++ [nl]].

(** The punctuation the name generator strips from the ends of a
    word. *)
Definition PUNCTUATION : str := lit ".,!?;:".

(** A word of the command line as the shell hands it over when it is
    not quoted: not empty and free of whitespace. *)
Definition plain_word (w : str) : Prop :=
  w <> [] /\ Forall (fun c => isspace c = false) w.

(** The three lines every run prints first. *)
Definition banner (a : args) : list str :=
  [ROBOT ++ lit " Building HTML tool: " ++ join (lit " ") (description a);
   [];
   HOURGLASS ++ lit " Calling html-tool-builder agent..."].

(** Unfolding a run down to the answers of the environment. *)
Ltac unfold_run :=
  unfold run_main, main, invoke_agent, bind, write_text, ret.

Ltac simpl_run :=
  cbn [print eprint sys_exit webbrowser_open fst snd negb andb
       stdout_lines stderr_lines files browser empty_world
       description output preview verbose with_verbose with_preview].

(** How [parser.parse_args()] ends, the first thing [main] does: it
    returns the parsed command line, or argparse itself leaves the
    program, with status 2 after writing the usage and an error to the
    error stream, or with status 0 after writing the help that
    [--help] asks for to the standard stream. *)
Inductive parsed :=
| Accepted (a : args)
| UsageError (message : str)
| HelpRequested (help : str).

Section CommandLine.

Variable U : unicode.
Variable E : env.

(** [main] from its first line on. *)
Definition main_from_command_line (p : parsed) : M unit :=
  match p with
  | Accepted a => main U E a
  | UsageError message => eprint message ;; sys_exit 2
  | HelpRequested help => print help ;; sys_exit 0
  end.

Definition run_from_command_line (p : parsed) : Z * world :=
  match main_from_command_line p empty_world with
  | (Value _, w) => (0%Z, w)
  | (Exit status, w) => (status, w)
  end.

End CommandLine.

(** Short names for the flags of the program and for the state in which
    a match begins: group 1 closed and empty. *)
Abbreviation fl := search_flags.
Abbreviation no_capture := {| Re.recording := false; Re.grp := [] |}.

(* ================================================================== *)
(** ** Properties of the string operations *)
(* ================================================================== *)

Section Strip.

Variable f : char -> bool.

Lemma lstrip_by_idem (s : str) : lstrip_by f (lstrip_by f s) = lstrip_by f s.
Proof.
  induction s as [|c s IH]; simpl; [reflexivity|].
  destruct (f c) eqn:Hc; [exact IH|].
  simpl. now rewrite Hc.
Qed.

(** Stripping on the left leaves a string that does not begin with a
    stripped character. *)
Lemma lstrip_by_head (s : str) (c : char) (t : str) :
  lstrip_by f s = c :: t -> f c = false.
Proof.
  induction s as [|x s IH]; simpl; [discriminate|].
  destruct (f x) eqn:Hx; [exact IH|].
  intros H. injection H as -> _. exact Hx.
Qed.

Lemma lstrip_by_fixed (c : char) (t : str) :
  f c = false -> lstrip_by f (c :: t) = c :: t.
Proof. intros H. simpl. now rewrite H. Qed.

(** Stripping the reverse of [c :: t] never eats [c] when [c] is kept. *)
Lemma lstrip_by_rev_keeps (c : char) (t : str) :
  f c = false ->
  exists u, rev (lstrip_by f (rev (c :: t))) = c :: u.
Proof.
  intros Hc. simpl.
  generalize (rev t) as r. intros r. clear t.
  induction r as [|x r IH]; simpl.
  - rewrite Hc. simpl. now exists [].
  - destruct (f x) eqn:Hx; [exact IH|].
    simpl. rewrite rev_app_distr. simpl. eexists. reflexivity.
Qed.

Lemma rstrip_by_idem (s : str) : rstrip_by f (rstrip_by f s) = rstrip_by f s.
Proof.
  unfold rstrip_by. rewrite rev_involutive. now rewrite lstrip_by_idem.
Qed.

Lemma lstrip_rstrip_fixed (s : str) :
  lstrip_by f s = s -> lstrip_by f (rstrip_by f s) = rstrip_by f s.
Proof.
  intros Hs. destruct s as [|c t]; [reflexivity|].
  assert (Hc : f c = false) by (eapply lstrip_by_head; exact Hs).
  unfold rstrip_by.
  destruct (lstrip_by_rev_keeps c t Hc) as [u Hu].
  rewrite Hu. now apply lstrip_by_fixed.
Qed.

Lemma strip_by_idem (s : str) : strip_by f (strip_by f s) = strip_by f s.
Proof.
  unfold strip_by.
  rewrite (lstrip_rstrip_fixed _ (lstrip_by_idem s)).
  apply rstrip_by_idem.
Qed.

(** A stripped string neither begins nor ends with a stripped
    character. *)
Lemma strip_by_first (s : str) (c : char) (t : str) :
  strip_by f s = c :: t -> f c = false.
Proof.
  intros H. apply lstrip_by_head with (s := strip_by f s) (t := t).
  unfold strip_by in *.
  rewrite (lstrip_rstrip_fixed _ (lstrip_by_idem s)). exact H.
Qed.

Lemma strip_by_last (s : str) (t : str) (c : char) :
  strip_by f s = t ++ [c] -> f c = false.
Proof.
  unfold strip_by, rstrip_by. intros H.
  apply (f_equal (@rev char)) in H.
  rewrite rev_involutive, rev_app_distr in H. simpl in H.
  eapply lstrip_by_head. exact H.
Qed.

(** What stripping removes: the result is a segment of the string. *)
Lemma lstrip_by_suffix (s : str) : exists p, s = p ++ lstrip_by f s.
Proof.
  induction s as [|c s [p Hp]]; simpl.
  - now exists [].
  - destruct (f c).
    + exists (c :: p). simpl. now f_equal.
    + now exists [].
Qed.

Lemma strip_by_segment (s : str) : exists p q, s = p ++ strip_by f s ++ q.
Proof.
  unfold strip_by, rstrip_by.
  destruct (lstrip_by_suffix s) as [p Hp].
  destruct (lstrip_by_suffix (rev (lstrip_by f s))) as [q Hq].
  exists p, (rev q).
  rewrite <- rev_app_distr, <- Hq, rev_involutive. exact Hp.
Qed.

(** A string that begins and ends with kept characters is left as it
    is. *)
Lemma strip_by_fixed (c d : char) (m : str) :
  f c = false -> f d = false ->
  strip_by f (c :: m ++ [d]) = c :: m ++ [d].
Proof.
  intros Hc Hd. unfold strip_by, rstrip_by.
  rewrite (lstrip_by_fixed _ _ Hc).
  change (c :: m ++ [d]) with ((c :: m) ++ [d]).
  rewrite rev_app_distr. simpl rev at 2. cbn [app].
  rewrite (lstrip_by_fixed _ _ Hd).
  change (d :: rev (c :: m)) with (rev [d] ++ rev (c :: m)).
  now rewrite <- rev_app_distr, rev_involutive.
Qed.

End Strip.

(* ================================================================== *)
(** ** Properties of substring search *)
(* ================================================================== *)

Lemma startswith_app (p rest : str) : startswith p (p ++ rest) = true.
Proof.
  induction p as [|a p IH]; simpl; [now destruct rest|].
  now rewrite N.eqb_refl.
Qed.

Lemma startswith_split (p s : str) :
  startswith p s = true -> s = p ++ skipn (List.length p) s.
Proof.
  revert s. induction p as [|a p IH]; intros [|b s]; simpl; try easy.
  intros H. apply andb_prop in H as [Hab Hp].
  apply N.eqb_eq in Hab. subst b. f_equal. now apply IH.
Qed.

Lemma startswith_contains (sub s : str) :
  startswith sub s = true -> contains sub s = true.
Proof. intros H. destruct s; simpl; now rewrite H. Qed.

Lemma contains_app (sub pre post : str) :
  contains sub (pre ++ sub ++ post) = true.
Proof.
  induction pre as [|c pre IH].
  - simpl app. apply startswith_contains, startswith_app.
  - simpl app. simpl contains. rewrite IH. apply orb_true_r.
Qed.

Lemma contains_split (sub s : str) :
  contains sub s = true -> exists pre post, s = pre ++ sub ++ post.
Proof.
  induction s as [|c s IH]; simpl; intros H.
  - rewrite orb_false_r in H. apply startswith_split in H.
    exists [], (skipn (List.length sub) []). exact H.
  - apply orb_prop in H as [H|H].
    + apply startswith_split in H.
      exists [], (skipn (List.length sub) (c :: s)). exact H.
    + destruct (IH H) as (pre & post & ->).
      now exists (c :: pre), post.
Qed.

Lemma ci_eq_length (a b : str) : ci_eq a b -> List.length a = List.length b.
Proof.
  unfold ci_eq. intros H. apply (f_equal (@List.length char)) in H.
  now rewrite !length_map in H.
Qed.

Lemma ci_startswith_app (p x rest : str) :
  ci_eq x p -> ci_startswith p (x ++ rest) = true.
Proof.
  unfold ci_eq, ci_startswith. intros H.
  rewrite map_app, H. apply startswith_app.
Qed.

Lemma ci_startswith_split (p s : str) :
  ci_startswith p s = true ->
  ci_eq (firstn (List.length p) s) p
  /\ s = firstn (List.length p) s ++ skipn (List.length p) s.
Proof.
  unfold ci_startswith, ci_eq. intros H. split.
  - apply startswith_split in H.
    apply (f_equal (firstn (List.length p))) in H.
    rewrite <- (length_map Re.fold p) in H at 2.
    rewrite firstn_app, Nat.sub_diag, firstn_all in H.
    simpl in H. rewrite app_nil_r in H.
    now rewrite firstn_map in H.
  - symmetry. apply firstn_skipn.
Qed.

Lemma ci_contains_app (sub x pre post : str) :
  ci_eq x sub -> ci_contains sub (pre ++ x ++ post) = true.
Proof.
  unfold ci_eq, ci_contains. intros H.
  rewrite !map_app, H. apply contains_app.
Qed.

(** An occurrence in the canonical casing is an occurrence in some
    casing. *)
Lemma contains_ci_contains (sub s : str) :
  contains sub s = true -> ci_contains sub s = true.
Proof.
  intros H. destruct (contains_split _ _ H) as (pre & post & ->).
  now apply ci_contains_app.
Qed.

Lemma ci_contains_cons (sub : str) (c : char) (s : str) :
  ci_contains sub s = true -> ci_contains sub (c :: s) = true.
Proof.
  unfold ci_contains. simpl. intros ->. apply orb_true_r.
Qed.

Lemma ci_startswith_contains (sub s : str) :
  ci_startswith sub s = true -> ci_contains sub s = true.
Proof.
  unfold ci_startswith, ci_contains. apply startswith_contains.
Qed.

(* ================================================================== *)
(** ** Properties of the pattern matcher *)
(* ================================================================== *)

Section Matcher.


Lemma consume_all_open (l acc : str) :
  consume_all l {| Re.recording := true; Re.grp := acc |}
  = {| Re.recording := true; Re.grp := rev l ++ acc |}.
Proof.
  unfold consume_all. revert acc.
  induction l as [|x l IH]; intros acc; simpl; [reflexivity|].
  unfold Re.consume at 2. simpl. rewrite IH. now rewrite <- app_assoc.
Qed.

Lemma consume_all_closed (l acc : str) :
  consume_all l {| Re.recording := false; Re.grp := acc |}
  = {| Re.recording := false; Re.grp := acc |}.
Proof. induction l as [|x l IH]; simpl; [reflexivity | exact IH]. Qed.

Lemma consume_all_app (a b : str) (st : Re.capture) :
  consume_all (a ++ b) st = consume_all b (consume_all a st).
Proof. apply fold_left_app. Qed.

(** Literal characters at the head of a pattern: the text must begin
    with them, in some casing. *)
Lemma run_chars (p : str) (r : Re.regex) (s : str) (st : Re.capture) :
  Re.run fl (Re.chars p ++ r) s st =
  if ci_startswith p s
  then Re.run fl r (skipn (List.length p) s)
              (consume_all (firstn (List.length p) s) st)
  else None.
Proof.
  revert s st. induction p as [|c p IH]; intros s st.
  - destruct s; reflexivity.
  - destruct s as [|x s]; [reflexivity|].
    simpl Re.chars. simpl app.
    change (Re.run fl (Re.Chr c :: Re.chars p ++ r) (x :: s) st)
      with (if Re.chr_matches fl c x
            then Re.run fl (Re.chars p ++ r) s (Re.consume x st) else None).
    change (ci_startswith (c :: p) (x :: s))
      with ((Re.fold c =? Re.fold x)%N && ci_startswith p s).
    change (Re.chr_matches fl c x) with (Re.fold c =? Re.fold x)%N.
    destruct (Re.fold c =? Re.fold x)%N; [|reflexivity].
    rewrite IH. reflexivity.
Qed.

Lemma run_chars_app (p x : str) (r : Re.regex) (rest : str)
      (st : Re.capture) :
  ci_eq x p ->
  Re.run fl (Re.chars p ++ r) (x ++ rest) st
  = Re.run fl r rest (consume_all x st).
Proof.
  intros H. rewrite run_chars, (ci_startswith_app _ _ _ H).
  rewrite <- (ci_eq_length _ _ H).
  rewrite skipn_app, skipn_all, Nat.sub_diag.
  rewrite firstn_app, firstn_all, Nat.sub_diag.
  simpl. now rewrite app_nil_r.
Qed.

(** The two equations of the lazy [.*?]. *)
Lemma run_lazy_nil (r : Re.regex) (st : Re.capture) :
  Re.run fl (Re.LazyDotStar :: r) [] st = Re.run fl r [] st.
Proof. simpl. now destruct (Re.run fl r [] st). Qed.

Lemma run_lazy_cons (r : Re.regex) (x : char) (s : str) (st : Re.capture) :
  Re.run fl (Re.LazyDotStar :: r) (x :: s) st =
  match Re.run fl r (x :: s) st with
  | Some g => Some g
  | None => Re.run fl (Re.LazyDotStar :: r) s (Re.consume x st)
  end.
Proof. reflexivity. Qed.

(** [.*?] skips some characters and the rest of the pattern matches
    what follows them. *)
Lemma run_lazy_sound (r : Re.regex) (s : str) (st : Re.capture) (g : str) :
  Re.run fl (Re.LazyDotStar :: r) s st = Some g ->
  exists skipped rest,
    s = skipped ++ rest /\ Re.run fl r rest (consume_all skipped st) = Some g.
Proof.
  revert st. induction s as [|x s IH]; intros st H.
  - rewrite run_lazy_nil in H. now exists [], [].
  - rewrite run_lazy_cons in H.
    destruct (Re.run fl r (x :: s) st) as [g'|] eqn:E.
    + injection H as ->. now exists [], (x :: s).
    + destruct (IH _ H) as (skipped & rest & -> & Hr).
      now exists (x :: skipped), rest.
Qed.

(** If the rest of the pattern matches after some characters, [.*?]
    finds a match (the first such place). *)
Lemma run_lazy_complete (r : Re.regex) (skipped rest : str)
      (st : Re.capture) :
  Re.run fl r rest (consume_all skipped st) <> None ->
  Re.run fl (Re.LazyDotStar :: r) (skipped ++ rest) st <> None.
Proof.
  revert st. induction skipped as [|x skipped IH]; intros st H.
  - simpl app. destruct rest as [|y rest].
    + now rewrite run_lazy_nil.
    + rewrite run_lazy_cons. simpl in H.
      destruct (Re.run fl r (y :: rest) st); [discriminate | now elim H].
  - simpl app. rewrite run_lazy_cons.
    destruct (Re.run fl r (x :: skipped ++ rest) st); [discriminate|].
    apply IH. exact H.
Qed.

(** [search] finds the match at the leftmost place where there is one. *)
Lemma search_sound (r : Re.regex) (s g : str) :
  Re.search fl r s = Some g ->
  exists pre rest, s = pre ++ rest /\ Re.run fl r rest no_capture = Some g.
Proof.
  induction s as [|x s IH]; simpl; intros H.
  - destruct (Re.run fl r [] no_capture) eqn:E; [|discriminate].
    injection H as ->. now exists [], [].
  - destruct (Re.run fl r (x :: s) no_capture) eqn:E.
    + injection H as ->. now exists [], (x :: s).
    + destruct (IH H) as (pre & rest & -> & Hr).
      now exists (x :: pre), rest.
Qed.

Lemma search_complete (r : Re.regex) (pre rest : str) :
  Re.run fl r rest no_capture <> None ->
  Re.search fl r (pre ++ rest) <> None.
Proof.
  intros H. induction pre as [|x pre IH].
  - simpl app. destruct rest; simpl;
      destruct (Re.run fl r _ no_capture); congruence.
  - simpl. destruct (Re.run fl r (x :: pre ++ rest) no_capture);
      [discriminate | exact IH].
Qed.

Lemma search_none_suffix (r : Re.regex) (pre rest : str) :
  Re.search fl r (pre ++ rest) = None -> Re.run fl r rest no_capture = None.
Proof.
  intros H. destruct (Re.run fl r rest no_capture) eqn:E; [|reflexivity].
  exfalso. apply (search_complete r pre rest); [congruence | exact H].
Qed.

End Matcher.

(* ================================================================== *)
(** ** The three patterns *)
(* ================================================================== *)

Section Patterns.


Lemma fold_nonletter (c x : char) :
  nonletter c -> Re.fold x = Re.fold c -> x = c.
Proof.
  unfold nonletter, Re.fold. intros Hc.
  destruct ((65 <=? x) && (x <=? 90))%N eqn:Ex;
    destruct ((65 <=? c) && (c <=? 90))%N eqn:Ec;
    rewrite ?andb_true_iff, ?andb_false_iff, ?N.leb_le, ?N.leb_gt in *;
    lia.
Qed.

(** Where the pattern has no letter, folding the case changes nothing. *)
Lemma ci_eq_nonletters (p x : str) :
  Forall nonletter p -> ci_eq x p -> x = p.
Proof.
  unfold ci_eq. intros Hp. revert x.
  induction Hp as [|c p Hc Hp IH]; intros [|y x] H; simpl in H;
    try discriminate; [reflexivity|].
  injection H as Hy Hx. f_equal; [now apply fold_nonletter | now apply IH].
Qed.

Lemma ci_eq_app_split (x a b : str) :
  ci_eq x (a ++ b) ->
  exists xa xb, x = xa ++ xb /\ ci_eq xa a /\ ci_eq xb b.
Proof.
  unfold ci_eq. rewrite map_app. intros H.
  apply map_eq_app in H as (xa & xb & -> & Ha & Hb). now exists xa, xb.
Qed.

Lemma FENCE_CLOSE_nonletters : Forall nonletter FENCE_CLOSE.
Proof. repeat constructor; unfold nonletter; lia. Qed.

Lemma FENCE_nonletters : Forall nonletter FENCE.
Proof. repeat constructor; unfold nonletter; lia. Qed.

(** The end of a pattern that closes the group and then wants the
    closing fence line. *)
Lemma run_close_fence (s acc g : str) :
  Re.run fl (Re.GroupClose :: Re.chars FENCE_CLOSE) s
         {| Re.recording := true; Re.grp := acc |} = Some g ->
  g = rev acc /\ exists post, s = FENCE_CLOSE ++ post.
Proof.
  change (Re.run fl (Re.GroupClose :: Re.chars FENCE_CLOSE) s
                 {| Re.recording := true; Re.grp := acc |})
    with (Re.run fl (Re.chars FENCE_CLOSE)  s
                 {| Re.recording := false; Re.grp := acc |}).
  rewrite <- (app_nil_r (Re.chars FENCE_CLOSE)), run_chars.
  destruct (ci_startswith FENCE_CLOSE s) eqn:E; [|discriminate].
  rewrite consume_all_closed. simpl. intros H. injection H as <-.
  split; [reflexivity|].
  apply ci_startswith_split in E as [E1 E2].
  apply ci_eq_nonletters in E1; [|exact FENCE_CLOSE_nonletters].
  exists (skipn (List.length FENCE_CLOSE) s). rewrite E1 in E2. exact E2.
Qed.

Lemma run_close_fence_app (post acc : str) :
  Re.run fl (Re.GroupClose :: Re.chars FENCE_CLOSE) (FENCE_CLOSE ++ post)
         {| Re.recording := true; Re.grp := acc |} = Some (rev acc).
Proof.
  change (Re.run fl (Re.GroupClose :: Re.chars FENCE_CLOSE)
                 (FENCE_CLOSE ++ post)
                 {| Re.recording := true; Re.grp := acc |})
    with (Re.run fl (Re.chars FENCE_CLOSE) (FENCE_CLOSE ++ post)
                 {| Re.recording := false; Re.grp := acc |}).
  rewrite <- (app_nil_r (Re.chars FENCE_CLOSE)).
  rewrite run_chars_app by reflexivity.
  now rewrite consume_all_closed.
Qed.

(** *** Rule 1: a fence labeled as HTML *)

Lemma run_html_fence_sound (s g : str) :
  Re.run fl pattern_html_fence s no_capture = Some g ->
  exists opener post,
    s = opener ++ g ++ FENCE_CLOSE ++ post /\ ci_eq opener HTML_FENCE_OPEN.
Proof.
  unfold pattern_html_fence.
  change (lit "```html" ++ [nl]) with HTML_FENCE_OPEN.
  change (nl :: FENCE) with FENCE_CLOSE.
  rewrite run_chars.
  destruct (ci_startswith HTML_FENCE_OPEN s) eqn:E; [|discriminate].
  apply ci_startswith_split in E as [E1 E2].
  rewrite consume_all_closed.
  set (rest := skipn (List.length HTML_FENCE_OPEN) s) in *.
  set (opener := firstn (List.length HTML_FENCE_OPEN) s) in *.
  change (Re.run fl ([Re.GroupOpen; Re.LazyDotStar; Re.GroupClose]
                       ++ Re.chars FENCE_CLOSE) rest no_capture)
    with (Re.run fl (Re.LazyDotStar :: Re.GroupClose :: Re.chars FENCE_CLOSE)
                 rest {| Re.recording := true; Re.grp := [] |}).
  intros H. apply run_lazy_sound in H as (skipped & rest' & Hrest & H).
  rewrite consume_all_open in H.
  apply run_close_fence in H as [-> [post ->]].
  exists opener, post. split; [|exact E1].
  rewrite app_nil_r, rev_involutive. now rewrite <- Hrest.
Qed.

Lemma run_html_fence_complete (opener body post : str) :
  ci_eq opener HTML_FENCE_OPEN ->
  Re.run fl pattern_html_fence (opener ++ body ++ FENCE_CLOSE ++ post)
         no_capture
  <> None.
Proof.
  intros Ho. unfold pattern_html_fence.
  change (lit "```html" ++ [nl]) with HTML_FENCE_OPEN.
  change (nl :: FENCE) with FENCE_CLOSE.
  rewrite (run_chars_app _ _ _ _ _ Ho), consume_all_closed.
  change (Re.run fl ([Re.GroupOpen; Re.LazyDotStar; Re.GroupClose]
                       ++ Re.chars FENCE_CLOSE)
                 (body ++ FENCE_CLOSE ++ post) no_capture)
    with (Re.run fl (Re.LazyDotStar :: Re.GroupClose :: Re.chars FENCE_CLOSE)
                 (body ++ FENCE_CLOSE ++ post)
                 {| Re.recording := true; Re.grp := [] |}).
  apply run_lazy_complete.
  rewrite consume_all_open, run_close_fence_app. discriminate.
Qed.

Lemma search_html_fence_sound (output g : str) :
  Re.search fl pattern_html_fence output = Some g ->
  labeled_fence_content output g.
Proof.
  intros H. apply search_sound in H as (pre & rest & -> & H).
  apply run_html_fence_sound in H as (opener & post & -> & Ho).
  now exists pre, opener, post.
Qed.

Lemma search_html_fence_complete (output content : str) :
  labeled_fence_content output content ->
  Re.search fl pattern_html_fence output <> None.
Proof.
  intros (pre & opener & post & -> & Ho).
  apply search_complete. now apply run_html_fence_complete.
Qed.

(** *** Rule 3: a bare span from a doctype token to a closing tag *)

Lemma run_bare_sound (s g : str) :
  Re.run fl pattern_bare s no_capture = Some g ->
  exists d mid e post,
    s = g ++ post /\ g = d ++ mid ++ e
    /\ ci_eq d DOCTYPE /\ ci_eq e END_HTML.
Proof.
  unfold pattern_bare.
  change (Re.run fl ([Re.GroupOpen] ++ Re.chars DOCTYPE ++ [Re.LazyDotStar]
                       ++ Re.chars END_HTML ++ [Re.GroupClose]) s no_capture)
    with (Re.run fl (Re.chars DOCTYPE
                       ++ Re.LazyDotStar :: Re.chars END_HTML
                       ++ [Re.GroupClose])
                 s {| Re.recording := true; Re.grp := [] |}).
  rewrite run_chars.
  destruct (ci_startswith DOCTYPE s) eqn:E; [|discriminate].
  apply ci_startswith_split in E as [E1 E2].
  set (d := firstn (List.length DOCTYPE) s) in *.
  set (rest := skipn (List.length DOCTYPE) s) in *.
  rewrite consume_all_open.
  intros H. apply run_lazy_sound in H as (mid & rest' & Hrest & H).
  rewrite consume_all_open, run_chars in H.
  destruct (ci_startswith END_HTML rest') eqn:E'; [|discriminate].
  apply ci_startswith_split in E' as [E1' E2'].
  set (e := firstn (List.length END_HTML) rest') in *.
  set (post := skipn (List.length END_HTML) rest') in *.
  rewrite consume_all_open in H. simpl in H. injection H as <-.
  exists d, mid, e, post.
  rewrite !rev_app_distr, !rev_involutive. simpl.
  repeat split; try assumption.
  - rewrite E2, Hrest, E2'. now rewrite <- !app_assoc.
  - now rewrite <- app_assoc.
Qed.

Lemma run_bare_complete (d mid e post : str) :
  ci_eq d DOCTYPE -> ci_eq e END_HTML ->
  Re.run fl pattern_bare (d ++ mid ++ e ++ post) no_capture <> None.
Proof.
  intros Hd He. unfold pattern_bare.
  change (Re.run fl ([Re.GroupOpen] ++ Re.chars DOCTYPE ++ [Re.LazyDotStar]
                       ++ Re.chars END_HTML ++ [Re.GroupClose])
                 (d ++ mid ++ e ++ post) no_capture)
    with (Re.run fl (Re.chars DOCTYPE
                       ++ Re.LazyDotStar :: Re.chars END_HTML
                       ++ [Re.GroupClose])
                 (d ++ mid ++ e ++ post)
                 {| Re.recording := true; Re.grp := [] |}).
  rewrite (run_chars_app _ _ _ _ _ Hd).
  apply run_lazy_complete.
  rewrite (run_chars_app _ _ _ _ _ He). discriminate.
Qed.

Lemma search_bare_sound (output g : str) :
  Re.search fl pattern_bare output = Some g -> bare_span output g.
Proof.
  intros H. apply search_sound in H as (pre & rest & -> & H).
  apply run_bare_sound in H as (d & mid & e & post & -> & Hg & Hd & He).
  now exists pre, d, mid, e, post.
Qed.

Lemma search_bare_complete (output span : str) :
  bare_span output span -> Re.search fl pattern_bare output <> None.
Proof.
  intros (pre & d & mid & e & post & -> & -> & Hd & He).
  apply search_complete. rewrite <- !app_assoc.
  now apply run_bare_complete.
Qed.

(** *** Rule 2: an unlabeled fence whose content begins with a doctype
    token *)

Lemma run_plain_fence_sound (s g : str) :
  Re.run fl pattern_plain_fence s no_capture = Some g ->
  exists d body post,
    s = FENCE ++ [nl] ++ g ++ FENCE_CLOSE ++ post
    /\ g = d ++ body /\ ci_eq d DOCTYPE.
Proof.
  unfold pattern_plain_fence. change (nl :: FENCE) with FENCE_CLOSE.
  rewrite run_chars.
  destruct (ci_startswith (FENCE ++ [nl]) s) eqn:E; [|discriminate].
  apply ci_startswith_split in E as [E1 E2].
  apply ci_eq_nonletters in E1;
    [|repeat constructor; unfold nonletter; lia].
  rewrite E1 in E2. rewrite consume_all_closed.
  set (rest := skipn (List.length (FENCE ++ [nl])) s) in *.
  change (Re.run fl ([Re.GroupOpen] ++ Re.chars DOCTYPE
                       ++ [Re.LazyDotStar; Re.GroupClose]
                       ++ Re.chars FENCE_CLOSE) rest no_capture)
    with (Re.run fl (Re.chars DOCTYPE
                       ++ Re.LazyDotStar :: Re.GroupClose
                       :: Re.chars FENCE_CLOSE)
                 rest {| Re.recording := true; Re.grp := [] |}).
  rewrite run_chars.
  destruct (ci_startswith DOCTYPE rest) eqn:E'; [|discriminate].
  apply ci_startswith_split in E' as [E1' E2'].
  set (d := firstn (List.length DOCTYPE) rest) in *.
  set (rest' := skipn (List.length DOCTYPE) rest) in *.
  rewrite consume_all_open.
  intros H. apply run_lazy_sound in H as (body & rest'' & Hrest & H).
  rewrite consume_all_open in H.
  apply run_close_fence in H as [-> [post ->]].
  exists d, body, post.
  rewrite !rev_app_distr, !rev_involutive. simpl rev. simpl app at 1.
  repeat split; try assumption.
  rewrite E2, E2', Hrest. now rewrite <- !app_assoc.
Qed.

(** *** A match needs a fence or a doctype token *)

Lemma search_html_fence_contains (output g : str) :
  Re.search fl pattern_html_fence output = Some g ->
  contains FENCE output = true.
Proof.
  intros H. apply search_html_fence_sound in H
    as (pre & opener & post & -> & Ho).
  change HTML_FENCE_OPEN with (FENCE ++ lit "html" ++ [nl]) in Ho.
  apply ci_eq_app_split in Ho as (xa & xb & -> & Ha & _).
  apply ci_eq_nonletters in Ha; [|exact FENCE_nonletters]. subst xa.
  rewrite <- !app_assoc. apply contains_app.
Qed.

Lemma search_plain_fence_contains (output g : str) :
  Re.search fl pattern_plain_fence output = Some g ->
  contains FENCE output = true.
Proof.
  intros H. apply search_sound in H as (pre & rest & -> & H).
  apply run_plain_fence_sound in H as (d & body & post & -> & _).
  apply contains_app.
Qed.

Lemma search_bare_contains (output g : str) :
  Re.search fl pattern_bare output = Some g ->
  ci_contains DOCTYPE output = true.
Proof.
  intros H. apply search_bare_sound in H
    as (pre & d & mid & e & post & -> & -> & Hd & _).
  rewrite <- !app_assoc. now apply ci_contains_app.
Qed.

End Patterns.

(* ================================================================== *)
(** ** The extractor: what it returns *)
(* ================================================================== *)

Lemma first_match_stripped (ps : list Re.regex) (output html : str) :
  first_match ps output = Some html -> exists g, html = strip g.
Proof.
  induction ps as [|pattern ps IH]; simpl; [discriminate|].
  destruct (Re.search search_flags pattern output) as [g|].
  - intros H. injection H as <-. now exists g.
  - exact IH.
Qed.

Lemma whole_output_stripped (output html : str) :
  whole_output output = Some html -> exists g, html = strip g.
Proof.
  unfold whole_output.
  destruct (contains DOCTYPE output); [|discriminate].
  destruct (negb _ && _); [|discriminate].
  intros H. injection H as <-. eexists. reflexivity.
Qed.

Lemma extract_stripped (output html : str) :
  extract_html_from_output output = Some html -> exists g, html = strip g.
Proof.
  unfold extract_html_from_output.
  destruct (first_match patterns output) as [h|] eqn:E.
  - intros H. injection H as <-. eapply first_match_stripped. exact E.
  - apply whole_output_stripped.
Qed.

(** Rule 1 decides whenever it matches. *)
Lemma extract_html_fence (output g : str) :
  Re.search search_flags pattern_html_fence output = Some g ->
  extract_html_from_output output = Some (strip g).
Proof.
  intros H. unfold extract_html_from_output, patterns. simpl.
  now rewrite H.
Qed.

(** Without a fence and without a doctype token no rule applies. *)
Lemma extract_nothing (output : str) :
  contains FENCE output = false ->
  ci_contains DOCTYPE output = false ->
  extract_html_from_output output = None.
Proof.
  intros Hf Hd.
  unfold extract_html_from_output, patterns. simpl.
  destruct (Re.search search_flags pattern_html_fence output) eqn:E1.
  { apply search_html_fence_contains in E1. congruence. }
  destruct (Re.search search_flags pattern_plain_fence output) eqn:E2.
  { apply search_plain_fence_contains in E2. congruence. }
  destruct (Re.search search_flags pattern_bare output) eqn:E3.
  { apply search_bare_contains in E3. congruence. }
  unfold whole_output.
  destruct (contains DOCTYPE output) eqn:E4; [|reflexivity].
  apply contains_ci_contains in E4. congruence.
Qed.

(* ================================================================== *)
(** ** The command: the extraction-failure path *)
(* ================================================================== *)

Section Runs.

Variable U : unicode.
Variable E : env.

(** When the agent has answered and [not html] holds, the program
    prints the two lines of the failure message on the error stream and
    leaves with status 1; it has written no file and opened no page. *)
Lemma main_extraction_failure (a : args) (agent_output : str) :
  subprocess_run E (agent_command (join (lit " ") (description a)))
  = Completed agent_output ->
  py_not (extract_html_from_output agent_output) = true ->
  fst (run_main U E a) = 1%Z
  /\ stderr_lines (snd (run_main U E a)) = extraction_failure_message
  /\ files (snd (run_main U E a)) = []
  /\ browser (snd (run_main U E a)) = [].
Proof.
  intros Hrun Hnot.
  unfold run_main, main, invoke_agent, bind.
  rewrite Hrun. unfold ret.
  destruct (verbose a); cbn [print eprint sys_exit fst snd
    stdout_lines stderr_lines files browser empty_world];
    rewrite Hnot; cbn [print eprint sys_exit fst snd
    stdout_lines stderr_lines files browser empty_world app];
    repeat split.
Qed.

Lemma py_not_document (html : str) :
  html <> [] -> py_not (Some html) = false.
Proof. destruct html; [congruence | reflexivity]. Qed.

(** When the agent has answered, a document was found and the file
    system takes the file, the program ends with status 0: it has
    written the UTF-8 encoding of the document to the path made from
    [output_file], and printed the absolute path and the size line. *)
Lemma main_success (a : args) (agent_output html : str) :
  subprocess_run E (agent_command (join (lit " ") (description a)))
  = Completed agent_output ->
  extract_html_from_output agent_output = Some html ->
  html <> [] ->
  write_bytes E (Path E (output_file U a)) (utf8 html) = None ->
  let path := Path E (output_file U a) in
  let w := snd (run_main U E a) in
  fst (run_main U E a) = 0%Z
  /\ stderr_lines w = []
  /\ files w = [(path, utf8 html)]
  /\ In (CHECK_MARK ++ lit " Generated: " ++ absolute E path)
        (stdout_lines w)
  /\ In (lit "   Size: " ++ str_of_nat (List.length html) ++ lit " bytes")
        (stdout_lines w).
Proof.
  intros Hrun Hhtml Hne Hwrite path w. subst path w.
  unfold run_main, main, invoke_agent, bind, write_text.
  rewrite Hrun. unfold ret.
  destruct (verbose a), (preview a);
    cbn [print eprint sys_exit webbrowser_open fst snd negb
         stdout_lines stderr_lines files browser empty_world];
    rewrite Hhtml, (py_not_document _ Hne), Hwrite;
    cbn [print eprint sys_exit webbrowser_open fst snd negb
         stdout_lines stderr_lines files browser empty_world];
    (repeat split; try reflexivity);
    rewrite ?in_app_iff; cbn [In]; tauto.
Qed.

End Runs.

(* ================================================================== *)
(** ** The returned document is stripped *)
(* ================================================================== *)

(** C9.  Whenever the extractor returns a document, the document equals
    its own stripped form: it neither begins nor ends with a whitespace
    character, whatever surrounded the matched span in the text. *)
Theorem extracted_document_is_stripped (output html : str) :
  extract_html_from_output output = Some html ->
  strip html = html
  /\ (forall c t, html = c :: t -> isspace c = false)
  /\ (forall t c, html = t ++ [c] -> isspace c = false).
Proof.
  intros H. apply extract_stripped in H as [g ->].
  unfold strip. split; [apply strip_by_idem|]. split.
  - intros c t. apply strip_by_first.
  - intros t c. apply strip_by_last.
Qed.

Lemma extracted_document_is_stripped_witness :
  extract_html_from_output (fenced (lit "  <p>Hi</p> " ++ [nl]))
  = Some (lit "<p>Hi</p>")
  /\ strip (lit "<p>Hi</p>") = lit "<p>Hi</p>".
Proof.
  split; [vm_compute; reflexivity|].
  apply (extracted_document_is_stripped
           (fenced (lit "  <p>Hi</p> " ++ [nl])) (lit "<p>Hi</p>")).
  vm_compute. reflexivity.
Defined.

(* ================================================================== *)
(** ** The command when no document is found *)
(* ================================================================== *)

(** C7.  A text with no doctype token in any casing and no code fence
    gives no document, and the program then leaves with status 1 after
    printing the extraction-failure message on the error stream; no
    file is written. *)
Theorem no_doctype_no_fence_fails
        (U : unicode) (E : env) (a : args) (agent_output : str) :
  ci_contains DOCTYPE agent_output = false ->
  contains FENCE agent_output = false ->
  subprocess_run E (agent_command (join (lit " ") (description a)))
  = Completed agent_output ->
  extract_html_from_output agent_output = None
  /\ fst (run_main U E a) = 1%Z
  /\ stderr_lines (snd (run_main U E a)) = extraction_failure_message
  /\ files (snd (run_main U E a)) = [].
Proof.
  intros Hd Hf Hrun.
  assert (Hnone : extract_html_from_output agent_output = None)
    by now apply extract_nothing.
  split; [exact Hnone|].
  destruct (main_extraction_failure U E a agent_output Hrun)
    as (H1 & H2 & H3 & _); [now rewrite Hnone|].
  now repeat split.
Qed.

Lemma no_doctype_no_fence_fails_witness :
  let agent_output := lit "Sorry, I cannot build that tool." in
  let E := quiet_env agent_output in
  let a := plain_args [lit "a"; lit "tool"] in
  extract_html_from_output agent_output = None
  /\ fst (run_main basic_latin E a) = 1%Z
  /\ stderr_lines (snd (run_main basic_latin E a))
     = extraction_failure_message
  /\ files (snd (run_main basic_latin E a)) = [].
Proof.
  apply (no_doctype_no_fence_fails basic_latin
           (quiet_env (lit "Sorry, I cannot build that tool."))
           (plain_args [lit "a"; lit "tool"])
           (lit "Sorry, I cannot build that tool."));
    vm_compute; reflexivity.
Defined.

(** C10.  When a rule matches but the stripped content is the empty
    string, the program takes the extraction-failure path: status 1,
    the extraction-failure message, and no file written. *)
Theorem empty_document_is_extraction_failure
        (U : unicode) (E : env) (a : args) (agent_output : str) :
  subprocess_run E (agent_command (join (lit " ") (description a)))
  = Completed agent_output ->
  extract_html_from_output agent_output = Some [] ->
  fst (run_main U E a) = 1%Z
  /\ stderr_lines (snd (run_main U E a)) = extraction_failure_message
  /\ files (snd (run_main U E a)) = [].
Proof.
  intros Hrun Hempty.
  destruct (main_extraction_failure U E a agent_output Hrun)
    as (H1 & H2 & H3 & _); [now rewrite Hempty|].
  now repeat split.
Qed.

Lemma empty_document_is_extraction_failure_witness :
  let E := quiet_env (fenced []) in
  let a := plain_args [lit "a"; lit "tool"] in
  extract_html_from_output (fenced []) = Some []
  /\ fst (run_main basic_latin E a) = 1%Z
  /\ stderr_lines (snd (run_main basic_latin E a))
     = extraction_failure_message
  /\ files (snd (run_main basic_latin E a)) = [].
Proof.
  split; [vm_compute; reflexivity|].
  apply (empty_document_is_extraction_failure basic_latin
           (quiet_env (fenced [])) (plain_args [lit "a"; lit "tool"])
           (fenced []));
    vm_compute; reflexivity.
Defined.

(* ================================================================== *)
(** ** The output path *)
(* ================================================================== *)

(** C8 as stated fails for the empty value: [--output] with an empty
    string is taken as no value, and the generated name is used. *)
Lemma empty_output_value_is_not_used :
  ~ (forall (U : unicode) (a : args) (v : str),
        output a = Some v -> output_file U a = v).
Proof.
  intros H.
  specialize (H basic_latin
                {| description := [lit "clock"]; output := Some [];
                   preview := false; verbose := false |}
                [] eq_refl).
  vm_compute in H. discriminate H.
Qed.

(** C8, amended.  A non-empty value given to [--output] is the file
    name used, whatever the description; in a run that succeeds the
    document is written to the path made from that value and nowhere
    else. *)
Theorem explicit_output_overrides
        (U : unicode) (E : env) (a : args) (v agent_output html : str) :
  output a = Some v ->
  v <> [] ->
  subprocess_run E (agent_command (join (lit " ") (description a)))
  = Completed agent_output ->
  extract_html_from_output agent_output = Some html ->
  html <> [] ->
  write_bytes E (Path E v) (utf8 html) = None ->
  output_file U a = v
  /\ files (snd (run_main U E a)) = [(Path E v, utf8 html)].
Proof.
  intros Hout Hv Hrun Hhtml Hne Hwrite.
  assert (Hfile : output_file U a = v).
  { unfold output_file. rewrite Hout. destruct v; [congruence|reflexivity]. }
  split; [exact Hfile|].
  rewrite <- Hfile in Hwrite |- *.
  now destruct (main_success U E a agent_output html Hrun Hhtml Hne Hwrite)
    as (_ & _ & H & _).
Qed.

Lemma explicit_output_overrides_witness :
  let a := {| description := [lit "clock"]; output := Some (lit "out/c.html");
              preview := false; verbose := false |} in
  let E := quiet_env (fenced (lit "<p>12:00</p>")) in
  output_file basic_latin a = lit "out/c.html"
  /\ files (snd (run_main basic_latin E a))
     = [(lit "out/c.html", utf8 (lit "<p>12:00</p>"))].
Proof.
  apply (explicit_output_overrides basic_latin
           (quiet_env (fenced (lit "<p>12:00</p>")))
           {| description := [lit "clock"];
              output := Some (lit "out/c.html");
              preview := false; verbose := false |}
           (lit "out/c.html") (fenced (lit "<p>12:00</p>"))
           (lit "<p>12:00</p>"));
    try (vm_compute; reflexivity); discriminate.
Defined.

(* ================================================================== *)
(** ** The size line *)
(* ================================================================== *)



(** C5, where the code departs from it.  The agent answers with a
    fence around [<p>é</p>]; the run succeeds and writes 9 bytes, and
    the size line says 8. *)
Theorem size_line_counts_characters :
  let html := lit "<p>" ++ [233%N] ++ lit "</p>" in
  let run := run_main basic_latin (quiet_env (fenced html))
                      (plain_args [lit "note"]) in
  fst run = 0%Z
  /\ files (snd run) = [(lit "note.html", utf8 html)]
  /\ List.length (utf8 html) = 9%nat
  /\ In (lit "   Size: 8 bytes") (stdout_lines (snd run))
  /\ ~ In (lit "   Size: 9 bytes") (stdout_lines (snd run)).
Proof.
  vm_compute. repeat split; try tauto.
  intros H. repeat (destruct H as [H|H]; [discriminate H|]). exact H.
Qed.

(* ================================================================== *)
(** ** Scenario C *)
(* ================================================================== *)

Lemma fold_ascii (c : char) : (c < 128)%N -> (Re.fold c < 128)%N.
Proof.
  unfold Re.fold. intros H.
  destruct ((65 <=? c) && (c <=? 90))%N eqn:E; [|exact H].
  apply andb_prop in E as [_ E]. apply N.leb_le in E. lia.
Qed.

(** The characters of a word of [s.split()] are characters of [s]. *)
Lemma split_run_chars (s cur w : str) :
  In w (split_run s cur) -> forall c, In c w -> In c s \/ In c cur.
Proof.
  revert cur. induction s as [|x s IH]; intros cur; simpl.
  - destruct cur as [|y cur]; [contradiction|].
    intros [<-|[]] c Hc. right. now apply in_rev.
  - destruct (isspace x).
    + destruct cur as [|y cur].
      * intros Hw c Hc. destruct (IH _ Hw c Hc) as [H|[]]. now left; right.
      * intros [<-|Hw] c Hc.
        -- right. now apply in_rev.
        -- destruct (IH _ Hw c Hc) as [H|[]]. now left; right.
    + intros Hw c Hc. destruct (IH _ Hw c Hc) as [H|[H|H]].
      * now left; right.
      * subst. now left; left.
      * now right.
Qed.

Lemma split_chars (s w : str) (c : char) :
  In w (split s) -> In c w -> In c s.
Proof.
  intros Hw Hc. destruct (split_run_chars s [] w Hw c Hc) as [H|[]].
  exact H.
Qed.

Lemma In_firstn {A : Type} (n : nat) (l : list A) (x : A) :
  In x (firstn n l) -> In x l.
Proof.
  intros H. rewrite <- (firstn_skipn n l). apply in_or_app. now left.
Qed.

Lemma forallb_agree {A : Type} (f g : A -> bool) (l : list A) :
  (forall x, In x l -> f x = g x) -> forallb f l = forallb g l.
Proof.
  induction l as [|a l IH]; simpl; [reflexivity|]. intros H.
  rewrite (H a) by now left. rewrite IH; [reflexivity|].
  intros x Hx. apply H. now right.
Qed.

(** On a description of Basic Latin characters, every database that is
    right on them gives the name that [basic_latin] gives. *)
Lemma generate_filename_ascii (U : unicode) (d : str) :
  right_on_ascii U -> is_ascii d ->
  generate_filename U d = generate_filename basic_latin d.
Proof.
  intros [Hlower Halnum] Hd. unfold generate_filename.
  rewrite (Hlower d Hd). change (lower basic_latin d) with (map Re.fold d).
  do 3 f_equal. apply filter_ext_in. intros w Hw.
  unfold keeps. f_equal.
  assert (Hchars : forall c, In c w -> (c < 128)%N).
  { intros c Hc. apply In_firstn in Hw.
    pose proof (split_chars _ _ _ Hw Hc) as Hin.
    apply in_map_iff in Hin as (c0 & <- & Hc0).
    apply fold_ascii. unfold is_ascii in Hd.
    rewrite Forall_forall in Hd. now apply Hd. }
  unfold isalnum. destruct w as [|c w]; [reflexivity|].
  apply forallb_agree. intros x Hx. apply Halnum, Hchars, Hx.
Qed.

(** C1, where the code departs from it.  [converter!] is tested with
    [isalnum] before its exclamation mark is stripped, so the word is
    dropped: with every database that is right on Basic Latin the name
    is [json-to-yaml.html], not [json-to-yaml-converter.html]. *)
Theorem scenario_C_filename (U : unicode) :
  right_on_ascii U ->
  generate_filename U (lit "JSON to YAML converter!")
  = lit "json-to-yaml.html"
  /\ generate_filename U (lit "JSON to YAML converter!")
     <> lit "json-to-yaml-converter.html".
Proof.
  intros HU. rewrite (generate_filename_ascii U _ HU).
  - vm_compute. split; [reflexivity | discriminate].
  - unfold is_ascii. vm_compute. repeat constructor.
Qed.

Lemma scenario_C_filename_witness :
  generate_filename basic_latin (lit "JSON to YAML converter!")
  = lit "json-to-yaml.html"
  /\ generate_filename basic_latin (lit "JSON to YAML converter!")
     <> lit "json-to-yaml-converter.html".
Proof.
  apply (scenario_C_filename basic_latin).
  split; intros; reflexivity.
Defined.

(* ================================================================== *)
(** ** The segments of a generated name *)
(* ================================================================== *)

Lemma mem_app (c : char) (a b : str) : mem c (a ++ b) = mem c a || mem c b.
Proof. apply existsb_app. Qed.

(** Stripping adds no character. *)
Lemma strip_by_mem (f : char -> bool) (c : char) (w : str) :
  mem c w = false -> mem c (strip_by f w) = false.
Proof.
  destruct (strip_by_segment f w) as (p & q & Hw).
  intros H. rewrite Hw, !mem_app in H.
  apply orb_false_elim in H as [_ H].
  now apply orb_false_elim in H as [H _].
Qed.

Lemma split_on_not_nil (sep : char) (s : str) : split_on sep s <> [].
Proof.
  destruct s as [|c s]; simpl; [discriminate|].
  destruct (split_on sep s); [discriminate|].
  destruct (c =? sep)%N; discriminate.
Qed.

Lemma split_on_free (sep : char) (w : str) :
  mem sep w = false -> split_on sep w = [w].
Proof.
  induction w as [|c w IH]; simpl; [reflexivity|].
  intros H. apply orb_false_elim in H as [Hc Hw].
  rewrite (IH Hw), N.eqb_sym, Hc. reflexivity.
Qed.

Lemma split_on_app_sep (sep : char) (w rest : str) :
  mem sep w = false ->
  split_on sep (w ++ sep :: rest) = w :: split_on sep rest.
Proof.
  induction w as [|c w IH]; simpl.
  - intros _. rewrite N.eqb_refl.
    destruct (split_on sep rest) eqn:E; [|reflexivity].
    now apply split_on_not_nil in E.
  - intros H. apply orb_false_elim in H as [Hc Hw].
    rewrite (IH Hw), N.eqb_sym, Hc. reflexivity.
Qed.

(** Joining words that hold no separator and splitting again gives the
    words back. *)
Lemma split_on_join (sep : char) (ws : list str) :
  Forall (fun w => mem sep w = false) ws ->
  ws <> [] ->
  split_on sep (join [sep] ws) = ws.
Proof.
  induction 1 as [|w ws Hw Hws IH]; [congruence|]. intros _.
  destruct ws as [|w' ws'].
  - simpl. now apply split_on_free.
  - change (join [sep] (w :: w' :: ws'))
      with (w ++ sep :: join [sep] (w' :: ws')).
    rewrite (split_on_app_sep _ _ _ Hw), IH; [reflexivity | discriminate].
Qed.

Lemma split_on_join_length (sep : char) (ws : list str) :
  Forall (fun w => mem sep w = false) ws ->
  List.length (split_on sep (join [sep] ws)) = Nat.max 1 (List.length ws).
Proof.
  intros H. destruct ws as [|w ws]; [reflexivity|].
  rewrite split_on_join; [simpl; lia | exact H | discriminate].
Qed.

Section Names.

Variable U : unicode.

(** The words that make the name: at most four, each a word among the
    first four of the lower-cased description that passed the test,
    with its punctuation stripped. *)
Lemma generate_filename_words (d : str) :
  exists kept,
    generate_filename U d = join (lit "-") kept ++ lit ".html"
    /\ (List.length kept <= 4)%nat
    /\ Forall (fun k => exists w,
                   In w (firstn 4 (split (lower U d)))
                   /\ keeps U w = true
                   /\ k = strip_chars (lit ".,!?;:") w) kept.
Proof.
  unfold generate_filename.
  set (words := firstn 4 (split (lower U d))).
  exists (map (strip_chars (lit ".,!?;:")) (filter (keeps U) words)).
  split; [reflexivity|]. split.
  - rewrite length_map.
    transitivity (List.length words); [apply filter_length_le|].
    apply firstn_le_length.
  - apply Forall_forall. intros k Hk.
    apply in_map_iff in Hk as (w & <- & Hw).
    apply filter_In in Hw as [Hin Hkeep]. now exists w.
Qed.

End Names.

(** C4 as stated fails: a word that contains hyphens passes the test and
    brings its own hyphens into the name.  [x-y a b c d] has four
    alphanumeric words and gives [x-y-a-b-c.html], five segments. *)
Lemma hyphenated_word_adds_segments :
  ~ (forall (U : unicode) (d : str),
        (4 <= List.length (filter (isalnum U) (split d)))%nat ->
        exists stem,
          generate_filename U d = stem ++ lit ".html"
          /\ (List.length (split_on HYPHEN stem) <= 4)%nat).
Proof.
  intros H.
  destruct (H basic_latin (lit "x-y a b c d")) as (stem & H1 & H2).
  - vm_compute. lia.
  - assert (Hf : generate_filename basic_latin (lit "x-y a b c d")
                 = lit "x-y-a-b-c" ++ lit ".html")
      by (vm_compute; reflexivity).
    rewrite Hf in H1. apply app_inv_tail in H1. subst stem.
    vm_compute in H2. lia.
Qed.

(** C4, amended.  When none of the first four words of the lower-cased
    description contains a hyphen, the name is at most four segments
    separated by hyphens, followed by [.html]. *)
Theorem filename_has_at_most_four_segments (U : unicode) (d : str) :
  Forall (fun w => mem HYPHEN w = false) (firstn 4 (split (lower U d))) ->
  exists stem,
    generate_filename U d = stem ++ lit ".html"
    /\ (List.length (split_on HYPHEN stem) <= 4)%nat.
Proof.
  intros Hfree.
  destruct (generate_filename_words U d) as (kept & Hname & Hlen & Hkept).
  exists (join (lit "-") kept). split; [exact Hname|].
  change (lit "-") with [HYPHEN].
  rewrite split_on_join_length; [lia|].
  rewrite Forall_forall in *. intros k Hk.
  destruct (Hkept k Hk) as (w & Hin & _ & ->).
  apply strip_by_mem. now apply Hfree.
Qed.

Lemma filename_has_at_most_four_segments_witness :
  let d := lit "Convert JSON to YAML quickly, please" in
  generate_filename basic_latin d = lit "convert-json-to-yaml.html"
  /\ exists stem,
       generate_filename basic_latin d = stem ++ lit ".html"
       /\ (List.length (split_on HYPHEN stem) <= 4)%nat.
Proof.
  split; [vm_compute; reflexivity|].
  apply (filename_has_at_most_four_segments basic_latin
           (lit "Convert JSON to YAML quickly, please")).
  vm_compute. repeat constructor.
Defined.

(* ================================================================== *)
(** ** [find] and [rfind] *)
(* ================================================================== *)

(** An index that [find] returns is the place of an occurrence. *)
Lemma find_from_found (sub s : str) (i : Z) :
  find_from sub s i <> (-1)%Z ->
  exists pre post,
    s = pre ++ sub ++ post
    /\ find_from sub s i = (i + Z.of_nat (List.length pre))%Z.
Proof.
  revert i. induction s as [|x s IH]; intros i; simpl.
  - destruct (startswith sub []) eqn:E; [|congruence]. intros _.
    apply startswith_split in E.
    exists [], (skipn (List.length sub) []). split; [exact E | simpl; lia].
  - destruct (startswith sub (x :: s)) eqn:E.
    + intros _. apply startswith_split in E.
      exists [], (skipn (List.length sub) (x :: s)).
      split; [exact E | simpl; lia].
    + intros H. destruct (IH _ H) as (pre & post & -> & Hr).
      exists (x :: pre), post. split; [reflexivity|].
      rewrite Hr. simpl List.length. lia.
Qed.

Lemma find_from_contains (sub s : str) (i : Z) :
  (0 <= i)%Z -> contains sub s = true ->
  (i <= find_from sub s i)%Z.
Proof.
  revert i. induction s as [|x s IH]; intros i Hi; simpl.
  - rewrite orb_false_r. intros ->. lia.
  - destruct (startswith sub (x :: s)); [intros _; lia|].
    simpl. intros H. specialize (IH (i + 1)%Z ltac:(lia) H). lia.
Qed.

Lemma rfind_from_found (sub s : str) (i : Z) :
  rfind_from sub s i <> (-1)%Z ->
  exists pre post,
    s = pre ++ sub ++ post
    /\ rfind_from sub s i = (i + Z.of_nat (List.length pre))%Z.
Proof.
  revert i. induction s as [|x s IH]; intros i; simpl.
  - destruct (startswith sub []) eqn:E; [|congruence]. intros _.
    apply startswith_split in E.
    exists [], (skipn (List.length sub) []). split; [exact E | simpl; lia].
  - destruct (rfind_from sub s (i + 1) =? -1)%Z eqn:Er.
    + destruct (startswith sub (x :: s)) eqn:E; [|congruence]. intros _.
      apply startswith_split in E.
      exists [], (skipn (List.length sub) (x :: s)).
      split; [exact E | simpl; lia].
    + intros H. destruct (IH _ H) as (pre & post & -> & Hr).
      exists (x :: pre), post. split; [reflexivity|].
      rewrite Hr. simpl List.length. lia.
Qed.

Lemma rfind_from_none (sub s : str) (i : Z) :
  (0 <= i)%Z -> rfind_from sub s i = (-1)%Z -> contains sub s = false.
Proof.
  revert i. induction s as [|x s IH]; intros i Hi; simpl.
  - destruct (startswith sub []); [lia | reflexivity].
  - destruct (rfind_from sub s (i + 1) =? -1)%Z eqn:Er.
    + apply Z.eqb_eq in Er.
      destruct (startswith sub (x :: s)); [lia|]. intros _.
      simpl. apply (IH (i + 1)%Z); [lia | exact Er].
    + apply Z.eqb_neq in Er. congruence.
Qed.

(** [rfind] answers -1 exactly when there is no occurrence. *)
Lemma rfind_none_iff (sub s : str) :
  rfind sub s = (-1)%Z <-> contains sub s = false.
Proof.
  split.
  - apply rfind_from_none. lia.
  - intros H. destruct (Z.eq_dec (rfind sub s) (-1)) as [E|E]; [exact E|].
    apply rfind_from_found in E as (pre & post & -> & _).
    now rewrite contains_app in H.
Qed.

(* ================================================================== *)
(** ** A doctype token and a closing tag do not overlap *)
(* ================================================================== *)

Lemma DOCTYPE_bracket (k : nat) :
  (k < 15)%nat -> nth k DOCTYPE 0%N = 60%N -> k = 0%nat.
Proof.
  intros Hk H.
  do 15 (destruct k as [|k];
         [first [reflexivity | vm_compute in H; discriminate H]|]).
  lia.
Qed.

Lemma END_HTML_bracket (k : nat) :
  (k < 7)%nat -> nth k END_HTML 0%N = 60%N -> k = 0%nat.
Proof.
  intros Hk H.
  do 7 (destruct k as [|k];
        [first [reflexivity | vm_compute in H; discriminate H]|]).
  lia.
Qed.

(** In one text, a closing tag ends before a doctype token begins or
    begins after it ends. *)
Lemma doctype_end_html_apart (pre post pre2 post2 : str) :
  pre ++ DOCTYPE ++ post = pre2 ++ END_HTML ++ post2 ->
  (List.length pre2 + 7 <= List.length pre)%nat
  \/ (List.length pre + 15 <= List.length pre2)%nat.
Proof.
  intros H.
  destruct (Nat.le_gt_cases (List.length pre2 + 7) (List.length pre))
    as [|H1]; [now left|].
  destruct (Nat.le_gt_cases (List.length pre + 15) (List.length pre2))
    as [|H2]; [now right|].
  exfalso.
  destruct (Nat.le_gt_cases (List.length pre) (List.length pre2)) as [Hle|Hgt].
  - (* the tag would begin inside the token *)
    assert (Hk : nth (List.length pre2 - List.length pre) DOCTYPE 0%N = 60%N).
    { apply (f_equal (fun l => nth (List.length pre2) l 0%N)) in H.
      rewrite (app_nth2 pre) in H by lia.
      rewrite app_nth1 in H by (change (List.length DOCTYPE) with 15%nat; lia).
      rewrite H. apply (nth_middle pre2). }
    apply DOCTYPE_bracket in Hk; [|lia].
    assert (Heq : List.length pre2 = List.length pre) by lia.
    apply (f_equal (fun l => nth (S (List.length pre2)) l 0%N)) in H.
    rewrite (app_nth2 pre), (app_nth2 pre2) in H by lia.
    rewrite Heq in H.
    replace (S (List.length pre) - List.length pre)%nat with 1%nat in H by lia.
    vm_compute in H. discriminate H.
  - (* the token would begin inside the tag *)
    assert (Hk : nth (List.length pre - List.length pre2) END_HTML 0%N = 60%N).
    { apply (f_equal (fun l => nth (List.length pre) l 0%N)) in H.
      rewrite (app_nth2 pre2) in H by lia.
      rewrite (app_nth1 END_HTML) in H
        by (change (List.length END_HTML) with 7%nat; lia).
      rewrite <- H. apply (nth_middle pre). }
    apply END_HTML_bracket in Hk; lia.
Qed.

(* ================================================================== *)
(** ** What the code after the loop can return *)
(* ================================================================== *)

(** When rule 3 found nothing, every closing tag of the text ends
    before the first doctype token begins: the end is never after the
    start, and nothing is returned. *)
Lemma whole_output_with_closing_tag (output : str) :
  Re.search search_flags pattern_bare output = None ->
  contains END_HTML output = true ->
  whole_output output = None.
Proof.
  intros Hbare Hend. unfold whole_output.
  destruct (contains DOCTYPE output) eqn:Hdoc; [|reflexivity].
  assert (Hstart : find DOCTYPE output <> (-1)%Z).
  { pose proof (find_from_contains DOCTYPE output 0 ltac:(lia) Hdoc).
    unfold find. lia. }
  assert (Hrf : rfind END_HTML output <> (-1)%Z).
  { intros E. apply rfind_none_iff in E. congruence. }
  destruct (find_from_found _ _ _ Hstart) as (pre & post & Hout & Hi).
  destruct (rfind_from_found _ _ _ Hrf) as (pre2 & post2 & Hout2 & Hj).
  fold (find DOCTYPE output) in Hi. fold (rfind END_HTML output) in Hj.
  rewrite Hi, Hj.
  assert (Hsame : pre ++ DOCTYPE ++ post = pre2 ++ END_HTML ++ post2)
    by congruence.
  assert (Hbare_complete :
            ~ exists span, bare_span output span).
  { intros [span Hspan]. now apply search_bare_complete in Hspan. }
  destruct (doctype_end_html_apart _ _ _ _ Hsame) as [Hbefore|Hafter].
  - replace (0 + Z.of_nat (List.length pre2) + 7 >?
             0 + Z.of_nat (List.length pre))%Z with false
      by (symmetry; rewrite Z.gtb_ltb; apply Z.ltb_ge; lia).
    now rewrite andb_false_r.
  - exfalso. apply Hbare_complete.
    apply app_eq_app in Hsame as [l [[Hp Hq]|[Hp Hq]]].
    + (* the tag would begin before the token *)
      apply (f_equal (@List.length char)) in Hp.
      rewrite length_app in Hp. lia.
    + assert (Hl : (15 <= List.length l)%nat).
      { apply (f_equal (@List.length char)) in Hp.
        rewrite length_app in Hp. lia. }
      apply app_eq_app in Hq as [m [[Hd Hm]|[Hd Hm]]].
      * (* the token is all of [l] *)
        assert (Hm0 : m = []).
        { apply (f_equal (@List.length char)) in Hd.
          rewrite length_app in Hd.
          change (List.length DOCTYPE) with 15%nat in Hd.
          destruct m; [reflexivity | simpl in Hd; lia]. }
        subst m. rewrite app_nil_r in Hd. subst l. simpl in Hm.
        exists (DOCTYPE ++ [] ++ END_HTML).
        exists pre, DOCTYPE, [], END_HTML, post2.
        repeat split; try reflexivity.
        rewrite Hout, <- Hm. now rewrite <- !app_assoc.
      * exists (DOCTYPE ++ m ++ END_HTML).
        exists pre, DOCTYPE, m, END_HTML, post2.
        repeat split; try reflexivity.
        rewrite Hout, Hm. now rewrite <- !app_assoc.
Qed.

(** A slice that begins where [rest] begins. *)
Lemma slice_from_app (pre rest : str) (j : Z) :
  (Z.of_nat (List.length pre) <= j <= len (pre ++ rest))%Z ->
  slice (pre ++ rest) (Z.of_nat (List.length pre)) j
  = firstn (Z.to_nat j - List.length pre) rest.
Proof.
  intros Hj. unfold slice, clamp_index.
  destruct (Z.ltb_spec (Z.of_nat (List.length pre)) 0); [lia|].
  destruct (Z.ltb_spec j 0); [lia|].
  rewrite !Z.min_l by (unfold len in *; rewrite length_app in *; lia).
  rewrite Nat2Z.id, skipn_app, skipn_all, Nat.sub_diag. simpl.
  f_equal. lia.
Qed.

(** Without a closing tag in the text, [rfind] answers -1, the end is
    6, and what is returned is a beginning of the doctype token: at
    most its first six characters. *)
Lemma whole_output_fragment (output html : str) :
  contains END_HTML output = false ->
  whole_output output = Some html ->
  exists n, (1 <= n <= 6)%nat /\ html = firstn n DOCTYPE.
Proof.
  intros Hend. unfold whole_output.
  destruct (contains DOCTYPE output) eqn:Hdoc; [|discriminate].
  assert (Hstart : find DOCTYPE output <> (-1)%Z).
  { pose proof (find_from_contains DOCTYPE output 0 ltac:(lia) Hdoc).
    unfold find. lia. }
  destruct (find_from_found _ _ _ Hstart) as (pre & post & Hout & Hi).
  fold (find DOCTYPE output) in Hi. simpl in Hi.
  apply rfind_none_iff in Hend. rewrite Hend, Hi.
  destruct (Z.of_nat (List.length pre) =? -1)%Z eqn:E1; [discriminate|].
  destruct (-1 + 7 >? Z.of_nat (List.length pre))%Z eqn:E2; [|discriminate].
  simpl. intros H. injection H as <-.
  rewrite Z.gtb_ltb in E2. apply Z.ltb_lt in E2.
  exists (6 - List.length pre)%nat. split; [lia|].
  rewrite Hout, slice_from_app.
  2:{ unfold len. rewrite !length_app.
      change (List.length DOCTYPE) with 15%nat. lia. }
  change (Z.to_nat 6) with 6%nat.
  rewrite firstn_app.
  replace (6 - List.length pre - List.length DOCTYPE)%nat with 0%nat
    by (change (List.length DOCTYPE) with 15%nat; lia).
  simpl firstn at 2. rewrite app_nil_r.
  assert (Hn : (6 - List.length pre <= 6)%nat) by lia.
  revert Hn. generalize (6 - List.length pre)%nat as n. intros n Hn.
  do 7 (destruct n as [|n]; [vm_compute; reflexivity|]). lia.
Qed.

(** Together: when the three patterns found nothing, the code after the
    loop returns nothing if the text holds a closing tag, and otherwise
    at most a piece of a doctype token; it never returns a document
    that runs from a doctype token to a closing tag. *)
Lemma whole_output_is_no_document (output : str) :
  first_match patterns output = None ->
  match extract_html_from_output output with
  | None => True
  | Some html =>
      contains END_HTML output = false
      /\ exists n, (1 <= n <= 6)%nat /\ html = firstn n DOCTYPE
  end.
Proof.
  intros Hnone. unfold extract_html_from_output. rewrite Hnone.
  destruct (whole_output output) as [html|] eqn:Hw; [|exact I].
  destruct (contains END_HTML output) eqn:Hend.
  - rewrite (whole_output_with_closing_tag output) in Hw;
      [discriminate | | exact Hend].
    unfold patterns in Hnone. simpl in Hnone.
    destruct (Re.search search_flags pattern_html_fence output);
      [discriminate|].
    destruct (Re.search search_flags pattern_plain_fence output);
      [discriminate|].
    destruct (Re.search search_flags pattern_bare output);
      [discriminate | reflexivity].
  - split; [reflexivity|]. now apply (whole_output_fragment output).
Qed.

(* ================================================================== *)
(** ** The three patterns do not see the case of letters *)
(* ================================================================== *)

Section IgnoreCase.


Lemma ci_eq_refl (a : str) : ci_eq a a.
Proof. reflexivity. Qed.

Lemma ci_eq_cons_inv (x y : char) (s t : str) :
  ci_eq (x :: s) (y :: t) -> Re.fold x = Re.fold y /\ ci_eq s t.
Proof. unfold ci_eq. simpl. intros H. now injection H. Qed.

Lemma ci_eq_cons (x y : char) (s t : str) :
  Re.fold x = Re.fold y -> ci_eq s t -> ci_eq (x :: s) (y :: t).
Proof. unfold ci_eq. simpl. now intros -> ->. Qed.

Lemma ci_eq_rev (a b : str) : ci_eq a b -> ci_eq (rev a) (rev b).
Proof. unfold ci_eq. rewrite !map_rev. now intros ->. Qed.

(** No letter is whitespace, so folding keeps whitespace as it is. *)
Lemma isspace_fold (c : char) : isspace (Re.fold c) = isspace c.
Proof.
  unfold Re.fold.
  destruct ((65 <=? c) && (c <=? 90))%N eqn:E; [|reflexivity].
  apply andb_prop in E as [E1 E2].
  apply N.leb_le in E1. apply N.leb_le in E2.
  assert (Hletter : forall x, (65 <= x <= 122)%N -> isspace x = false).
  { intros x Hx. unfold isspace.
    replace (x <=? 13)%N with false by (symmetry; apply N.leb_gt; lia).
    replace (x <=? 32)%N with false by (symmetry; apply N.leb_gt; lia).
    replace (8192 <=? x)%N with false by (symmetry; apply N.leb_gt; lia).
    repeat match goal with
           | |- context [(x =? ?n)%N] =>
               replace (x =? n)%N with false
                 by (symmetry; apply N.eqb_neq; lia)
           end.
    now rewrite !andb_false_r. }
  rewrite !Hletter by lia. reflexivity.
Qed.

Lemma isspace_ci (x y : char) : Re.fold x = Re.fold y -> isspace x = isspace y.
Proof.
  intros H. rewrite <- (isspace_fold x), <- (isspace_fold y). now rewrite H.
Qed.

Lemma lstrip_ci (a b : str) :
  ci_eq a b -> ci_eq (lstrip_by isspace a) (lstrip_by isspace b).
Proof.
  revert b. induction a as [|x a IH]; intros [|y b] H;
    try discriminate H; [reflexivity|].
  destruct (ci_eq_cons_inv _ _ _ _ H) as [Hxy Hab].
  simpl. rewrite (isspace_ci _ _ Hxy).
  destruct (isspace y); [now apply IH | exact H].
Qed.

Lemma strip_ci (a b : str) : ci_eq a b -> ci_eq (strip a) (strip b).
Proof.
  intros H. unfold strip, strip_by, rstrip_by.
  now apply ci_eq_rev, lstrip_ci, ci_eq_rev, lstrip_ci.
Qed.

Lemma consume_ci (x y : char) (st st' : Re.capture) :
  Re.fold x = Re.fold y -> ci_capture st st' ->
  ci_capture (Re.consume x st) (Re.consume y st').
Proof.
  intros Hxy [Hr Hg]. unfold Re.consume. rewrite <- Hr.
  destruct (Re.recording st) eqn:E; split; simpl;
    try reflexivity; try congruence.
  now apply ci_eq_cons.
Qed.

(** Matching at the head of two texts that agree up to case gives
    results that agree up to case. *)
Lemma run_ci (r : Re.regex) :
  forall (s s' : str) (st st' : Re.capture),
    ci_eq s s' -> ci_capture st st' ->
    ci_result (Re.run fl r s st) (Re.run fl r s' st').
Proof.
  induction r as [|it r IH]; intros s s' st st' Hs Hst.
  - simpl. destruct Hst as [_ Hg]. now apply ci_eq_rev.
  - destruct it as [c| | |].
    + destruct s as [|x s], s' as [|y s']; try discriminate Hs;
        [exact I|].
      destruct (ci_eq_cons_inv _ _ _ _ Hs) as [Hxy Hss].
      simpl. unfold Re.chr_matches. simpl. rewrite Hxy.
      destruct (Re.fold c =? Re.fold y)%N; [|exact I].
      apply IH; [exact Hss | now apply consume_ci].
    + revert s' st st' Hs Hst.
      induction s as [|x s IHs]; intros [|y s'] st st' Hs Hst;
        try discriminate Hs.
      * rewrite !run_lazy_nil. now apply IH.
      * destruct (ci_eq_cons_inv _ _ _ _ Hs) as [Hxy Hss].
        rewrite !run_lazy_cons.
        pose proof (IH (x :: s) (y :: s') st st' Hs Hst) as Hhere.
        destruct (Re.run fl r (x :: s) st), (Re.run fl r (y :: s') st');
          try exact Hhere; try contradiction.
        apply IHs; [exact Hss | now apply consume_ci].
    + simpl. apply IH; [exact Hs|]. destruct Hst as [_ Hg]. now split.
    + simpl. apply IH; [exact Hs|]. destruct Hst as [_ Hg]. now split.
Qed.

Lemma search_ci (r : Re.regex) (s s' : str) :
  ci_eq s s' -> ci_result (Re.search fl r s) (Re.search fl r s').
Proof.
  revert s'. induction s as [|x s IH]; intros [|y s'] Hs;
    try discriminate Hs.
  - simpl.
    pose proof (run_ci r [] []
                  {| Re.recording := false; Re.grp := [] |}
                  {| Re.recording := false; Re.grp := [] |}
                  Hs (conj eq_refl (ci_eq_refl []))) as H.
    simpl in H.
    destruct (Re.run fl r [] _); [exact H | exact I].
  - destruct (ci_eq_cons_inv _ _ _ _ Hs) as [_ Hss].
    pose proof (run_ci r (x :: s) (y :: s')
                  {| Re.recording := false; Re.grp := [] |}
                  {| Re.recording := false; Re.grp := [] |}
                  Hs (conj eq_refl (ci_eq_refl []))) as H.
    simpl.
    destruct (Re.run fl r (x :: s) _), (Re.run fl r (y :: s') _);
      try exact H; try contradiction.
    now apply IH.
Qed.

(** The loop over the patterns: two texts that agree up to the case of
    their letters are matched by the same rule, at the same place, and
    the two documents agree up to case. *)
Lemma first_match_ci (ps : list Re.regex) (s s' : str) :
  ci_eq s s' -> ci_result (first_match ps s) (first_match ps s').
Proof.
  intros Hs. induction ps as [|pattern ps IH]; simpl; [exact I|].
  pose proof (search_ci pattern s s' Hs) as H.
  destruct (Re.search fl pattern s), (Re.search fl pattern s');
    try contradiction; [|exact IH].
  simpl. now apply strip_ci.
Qed.

End IgnoreCase.

(* ================================================================== *)
(** ** The code after the loop against rule 4 of the specification *)
(* ================================================================== *)

Lemma find_from_first_index (sub s : str) (i : Z) :
  find_from sub s i =
  match first_index sub s with
  | Some k => (i + Z.of_nat k)%Z
  | None => (-1)%Z
  end.
Proof.
  revert i. induction s as [|x s IH]; intros i; simpl.
  - destruct (startswith sub []); [simpl; lia | reflexivity].
  - destruct (startswith sub (x :: s)); [simpl; lia|].
    rewrite IH. destruct (first_index sub s); simpl; lia.
Qed.

Lemma rfind_from_last_index (sub s : str) (i : Z) :
  (0 <= i)%Z ->
  rfind_from sub s i =
  match last_index sub s with
  | Some k => (i + Z.of_nat k)%Z
  | None => (-1)%Z
  end.
Proof.
  revert i. induction s as [|x s IH]; intros i Hi; simpl.
  - destruct (startswith sub []); [simpl; lia | reflexivity].
  - rewrite (IH (i + 1)%Z) by lia.
    destruct (last_index sub s) as [k|].
    + destruct (Z.eqb_spec (i + 1 + Z.of_nat k) (-1)); lia.
    + simpl. destruct (startswith sub (x :: s)); simpl; lia.
Qed.

(** A closing tag that begins after a doctype token ends: what stands
    between them. *)
Lemma doctype_then_end_html (pre post pre2 post2 : str) :
  pre ++ DOCTYPE ++ post = pre2 ++ END_HTML ++ post2 ->
  (List.length pre + 15 <= List.length pre2)%nat ->
  exists m, pre2 = pre ++ DOCTYPE ++ m /\ post = m ++ END_HTML ++ post2.
Proof.
  intros Hsame Hafter.
  apply app_eq_app in Hsame as [l [[Hp Hq]|[Hp Hq]]].
  - apply (f_equal (@List.length char)) in Hp.
    rewrite length_app in Hp. lia.
  - assert (Hl : (15 <= List.length l)%nat).
    { apply (f_equal (@List.length char)) in Hp.
      rewrite length_app in Hp. lia. }
    apply app_eq_app in Hq as [m [[Hd Hm]|[Hd Hm]]].
    + assert (Hm0 : m = []).
      { apply (f_equal (@List.length char)) in Hd.
        rewrite length_app in Hd.
        change (List.length DOCTYPE) with 15%nat in Hd.
        destruct m; [reflexivity | simpl in Hd; lia]. }
      subst m. rewrite app_nil_r in Hd. subst l.
      change ([] ++ post) with post in Hm.
      exists []. rewrite app_nil_r. split; [exact Hp | now symmetry].
    + exists m. subst l. split; [exact Hp | exact Hm].
Qed.

(** On a text that holds a closing tag, the code after the loop does
    what rule 4 of the specification says. *)
Lemma whole_output_as_specified (output : str) :
  contains END_HTML output = true ->
  whole_output output = fallback_as_specified output.
Proof.
  intros Hend. unfold whole_output, fallback_as_specified, find, rfind.
  assert (Hrf : rfind END_HTML output <> (-1)%Z).
  { intros E. apply rfind_none_iff in E. congruence. }
  destruct (rfind_from_found _ _ _ Hrf) as (pre2 & post2 & Hout2 & Hj).
  rewrite rfind_from_last_index in Hj |- * by lia.
  destruct (last_index END_HTML output) as [j|]; [|lia].
  assert (Ej : j = List.length pre2) by lia. clear Hj.
  destruct (contains DOCTYPE output) eqn:Hdoc.
  - pose proof (find_from_contains DOCTYPE output 0 ltac:(lia) Hdoc) as Hge.
    assert (Hstart : find_from DOCTYPE output 0 <> (-1)%Z) by lia.
    destruct (find_from_found _ _ _ Hstart) as (pre & post & Hout & Hi).
    rewrite find_from_first_index in Hi |- *.
    destruct (first_index DOCTYPE output) as [i|]; [|lia].
    assert (Ei : i = List.length pre) by lia. clear Hi Hge Hstart.
    assert (Hsame : pre ++ DOCTYPE ++ post = pre2 ++ END_HTML ++ post2)
      by congruence.
    destruct (Z.eqb_spec (0 + Z.of_nat i) (-1)); [lia|]. simpl negb.
    rewrite Z.gtb_ltb.
    destruct (doctype_end_html_apart _ _ _ _ Hsame) as [Hbefore|Hafter].
    + replace (0 + Z.of_nat i <? 0 + Z.of_nat j + 7)%Z with false
        by (symmetry; apply Z.ltb_ge; lia).
      replace (i <? j + 7)%nat with false
        by (symmetry; apply Nat.ltb_ge; lia).
      reflexivity.
    + replace (0 + Z.of_nat i <? 0 + Z.of_nat j + 7)%Z with true
        by (symmetry; apply Z.ltb_lt; lia).
      replace (i <? j + 7)%nat with true
        by (symmetry; apply Nat.ltb_lt; lia).
      simpl andb. cbv iota. f_equal.
      destruct (doctype_then_end_html _ _ _ _ Hsame Hafter)
        as (m & Hp & Hq).
      assert (Ejm : j = (List.length pre + 15 + List.length m)%nat).
      { rewrite Ej, Hp, !length_app.
        change (List.length DOCTYPE) with 15%nat. lia. }
      subst i.
      assert (Hskip : skipn (List.length pre) output = DOCTYPE ++ post).
      { rewrite Hout, skipn_app, skipn_all, Nat.sub_diag. reflexivity. }
      assert (Hslice : slice output (0 + Z.of_nat (List.length pre))
                             (0 + Z.of_nat j + 7)
                       = firstn (j + 7 - List.length pre) (DOCTYPE ++ post)).
      { rewrite Hout.
        replace (0 + Z.of_nat (List.length pre))%Z
          with (Z.of_nat (List.length pre)) by lia.
        rewrite slice_from_app; [f_equal; lia|].
        unfold len. rewrite Hq, !length_app.
        change (List.length DOCTYPE) with 15%nat.
        change (List.length END_HTML) with 7%nat. lia. }
      assert (Hpiece : firstn (j + 7 - List.length pre) (DOCTYPE ++ post)
                       = DOCTYPE ++ m ++ END_HTML).
      { rewrite Hq.
        replace (DOCTYPE ++ m ++ END_HTML ++ post2)
          with ((DOCTYPE ++ m ++ END_HTML) ++ post2)
          by now rewrite <- !app_assoc.
        replace (j + 7 - List.length pre)%nat
          with (List.length (DOCTYPE ++ m ++ END_HTML) + 0)%nat.
        - rewrite firstn_app_2. simpl. now rewrite app_nil_r.
        - rewrite !length_app.
          change (List.length DOCTYPE) with 15%nat.
          change (List.length END_HTML) with 7%nat. lia. }
      rewrite Hslice, Hskip, Hpiece.
      replace (DOCTYPE ++ m ++ END_HTML)
        with (60%N :: (lit "!DOCTYPE html>" ++ m ++ lit "</html") ++ [62%N])
        by (rewrite <- !app_assoc; reflexivity).
      apply strip_by_fixed; reflexivity.
  - destruct (first_index DOCTYPE output) as [i|] eqn:Hfi; [|reflexivity].
    exfalso.
    assert (Hstart : find_from DOCTYPE output 0 <> (-1)%Z)
      by (rewrite find_from_first_index, Hfi; lia).
    apply find_from_found in Hstart as (pre & post & Hout & _).
    rewrite Hout, contains_app in Hdoc. discriminate.
Qed.

(* ================================================================== *)
(** ** The code after the loop and rule 4 *)
(* ================================================================== *)

Lemma fallback_as_specified_needs_closing_tag (output : str) :
  contains END_HTML output = false -> fallback_as_specified output = None.
Proof.
  intros H. apply rfind_none_iff in H. unfold rfind in H.
  rewrite rfind_from_last_index in H by lia.
  unfold fallback_as_specified.
  destruct (last_index END_HTML output); [lia|].
  now destruct (first_index DOCTYPE output).
Qed.

(** When no pattern matched and the text holds a closing tag, the
    extractor returns what rule 4 of the specification says, which is
    nothing. *)
Lemma extract_as_specified (output : str) :
  first_match patterns output = None ->
  contains END_HTML output = true ->
  extract_html_from_output output = fallback_as_specified output
  /\ extract_html_from_output output = None.
Proof.
  intros Hnone Hend.
  pose proof (whole_output_is_no_document output Hnone) as H.
  unfold extract_html_from_output in *. rewrite Hnone in *.
  rewrite <- (whole_output_as_specified output Hend).
  split; [reflexivity|].
  destruct (whole_output output); [|reflexivity].
  destruct H as [H _]. congruence.
Qed.

(** C2, where the code departs from it.  The text has a doctype token
    and no closing html tag.  No pattern matches, and rule 4 of the
    specification gives nothing, there being no closing tag; in the
    code [rfind] answers -1, the end is taken to be 6, and the first
    six characters of the text are returned. *)
Theorem whole_output_without_closing_tag :
  let output := lit "<!DOCTYPE html><html><body>Hi</body>" in
  first_match patterns output = None
  /\ contains DOCTYPE output = true
  /\ contains END_HTML output = false
  /\ rfind END_HTML output = (-1)%Z
  /\ fallback_as_specified output = None
  /\ extract_html_from_output output = Some (lit "<!DOCT").
Proof. vm_compute. repeat split. Qed.

(** Two texts that agree up to the case of their letters give
    documents that agree up to case whenever a pattern matches one of
    them. *)
Lemma extract_ci_when_matched (s s' : str) :
  ci_eq s s' ->
  first_match patterns s <> None ->
  ci_result (extract_html_from_output s) (extract_html_from_output s').
Proof.
  intros Hs Hm. pose proof (first_match_ci patterns s s' Hs) as H.
  unfold extract_html_from_output.
  destruct (first_match patterns s); [|congruence].
  destruct (first_match patterns s'); [exact H | contradiction].
Qed.

(** C3, where the code departs from it.  Two texts that differ only in
    the casing of the doctype token, on which no pattern matches: the
    code after the loop looks for the token as it is written in the
    source, finds it in the first text and not in the second, and the
    results differ. *)
Theorem whole_output_is_case_sensitive :
  let upper := lit "<!DOCTYPE html><html><body>Hi</body>" in
  let lower := lit "<!doctype html><html><body>Hi</body>" in
  ci_eq upper lower
  /\ first_match patterns upper = None
  /\ first_match patterns lower = None
  /\ extract_html_from_output upper = Some (lit "<!DOCT")
  /\ extract_html_from_output lower = None.
Proof. vm_compute. repeat split. Qed.

(* ================================================================== *)
(** ** Which fence rule 1 finds *)
(* ================================================================== *)

Lemma startswith_app_long (p a b : str) :
  (List.length p <= List.length a)%nat ->
  startswith p (a ++ b) = startswith p a.
Proof.
  revert a. induction p as [|c p IH]; intros a H.
  - now destruct a, b.
  - destruct a as [|x a]; [simpl in H; lia|].
    simpl in *. rewrite IH by lia. reflexivity.
Qed.

Lemma contains_skipn (sub s : str) (k : nat) :
  contains sub (skipn k s) = true -> contains sub s = true.
Proof.
  revert s. induction k as [|k IH]; intros [|x s] H; simpl in *;
    try exact H.
  rewrite (IH _ H). apply orb_true_r.
Qed.

(** An occurrence that begins at [k] and ends within [a] is an
    occurrence in [a]. *)
Lemma startswith_window (p a b : str) (k : nat) :
  (k + List.length p <= List.length a)%nat ->
  startswith p (skipn k (a ++ b)) = true -> contains p a = true.
Proof.
  intros Hk H. apply (contains_skipn p a k), startswith_contains.
  rewrite skipn_app in H.
  rewrite startswith_app_long in H; [exact H|].
  rewrite length_skipn. lia.
Qed.

Lemma ci_startswith_window (p a b : str) (k : nat) :
  (k + List.length p <= List.length a)%nat ->
  ci_startswith p (skipn k (a ++ b)) = true -> ci_contains p a = true.
Proof.
  unfold ci_startswith, ci_contains. intros Hk H.
  rewrite <- skipn_map, map_app in H.
  apply (startswith_window _ _ _ k) in H; [exact H|].
  now rewrite !length_map.
Qed.

Lemma ci_startswith_nonletters (p s : str) :
  Forall nonletter p -> ci_startswith p s = true -> startswith p s = true.
Proof.
  intros Hp H. apply ci_startswith_split in H as [H1 H2].
  apply ci_eq_nonletters in H1; [|exact Hp].
  rewrite H2, H1. apply startswith_app.
Qed.

(** [search] passes over the places where the pattern does not match. *)
Lemma search_skip (r : Re.regex) (pre rest : str) :
  (forall k, (k < List.length pre)%nat ->
             Re.run fl r (skipn k (pre ++ rest)) no_capture = None) ->
  Re.search fl r (pre ++ rest) = Re.search fl r rest.
Proof.
  induction pre as [|x pre IH]; intros H; [reflexivity|].
  pose proof (H 0%nat ltac:(simpl; lia)) as H0. simpl in H0.
  simpl app. simpl Re.search. rewrite H0.
  apply IH. intros k Hk. apply (H (S k)). simpl. lia.
Qed.

Lemma search_here (r : Re.regex) (s g : str) :
  Re.run fl r s no_capture = Some g -> Re.search fl r s = Some g.
Proof. intros H. destruct s; simpl; now rewrite H. Qed.

Lemma run_lazy_here (r : Re.regex) (s g : str) (st : Re.capture) :
  Re.run fl r s st = Some g -> Re.run fl (Re.LazyDotStar :: r) s st = Some g.
Proof.
  intros H. destruct s.
  - now rewrite run_lazy_nil.
  - now rewrite run_lazy_cons, H.
Qed.

(** [.*?] passes over the places where the rest of the pattern does not
    match. *)
Lemma run_lazy_first (r : Re.regex) (skipped rest : str) (st : Re.capture) :
  (forall k, (k < List.length skipped)%nat ->
             Re.run fl r (skipn k (skipped ++ rest))
                    (consume_all (firstn k skipped) st) = None) ->
  Re.run fl (Re.LazyDotStar :: r) (skipped ++ rest) st
  = Re.run fl (Re.LazyDotStar :: r) rest (consume_all skipped st).
Proof.
  revert st. induction skipped as [|x skipped IH]; intros st H;
    [reflexivity|].
  simpl app. rewrite run_lazy_cons.
  pose proof (H 0%nat ltac:(simpl; lia)) as H0. simpl in H0. rewrite H0.
  apply IH. intros k Hk. apply (H (S k)). simpl. lia.
Qed.

(** Rule 1 returns the content of the leftmost fence labeled as HTML,
    up to the first closing fence line after its opening line. *)
Lemma search_html_fence_first (pre opener content post : str) :
  ci_eq opener HTML_FENCE_OPEN ->
  ci_contains HTML_FENCE_OPEN (pre ++ firstn 7 opener) = false ->
  contains FENCE_CLOSE (content ++ firstn 3 FENCE_CLOSE) = false ->
  Re.search fl pattern_html_fence
            (pre ++ opener ++ content ++ FENCE_CLOSE ++ post)
  = Some content.
Proof.
  intros Ho Hfirst Hclose.
  pose proof (ci_eq_length _ _ Ho) as Hlen.
  change (List.length HTML_FENCE_OPEN) with 8%nat in Hlen.
  rewrite search_skip.
  - apply search_here. unfold pattern_html_fence.
    change (lit "```html" ++ [nl]) with HTML_FENCE_OPEN.
    change (nl :: FENCE) with FENCE_CLOSE.
    rewrite (run_chars_app _ _ _ _ _ Ho), consume_all_closed.
    change (Re.run fl ([Re.GroupOpen; Re.LazyDotStar; Re.GroupClose]
                         ++ Re.chars FENCE_CLOSE)
                   (content ++ FENCE_CLOSE ++ post) no_capture)
      with (Re.run fl
                   (Re.LazyDotStar :: Re.GroupClose :: Re.chars FENCE_CLOSE)
                   (content ++ FENCE_CLOSE ++ post)
                   {| Re.recording := true; Re.grp := [] |}).
    rewrite run_lazy_first.
    + apply run_lazy_here.
      rewrite consume_all_open, run_close_fence_app.
      now rewrite app_nil_r, rev_involutive.
    + intros k Hk. rewrite consume_all_open.
      destruct (Re.run fl _ _ _) as [g|] eqn:E; [|reflexivity].
      exfalso. apply run_close_fence in E as [_ [post' E]].
      assert (Hs : startswith FENCE_CLOSE
                     (skipn k ((content ++ firstn 3 FENCE_CLOSE)
                               ++ skipn 3 FENCE_CLOSE ++ post)) = true).
      { rewrite <- app_assoc.
        replace (firstn 3 FENCE_CLOSE ++ skipn 3 FENCE_CLOSE ++ post)
          with (FENCE_CLOSE ++ post) by reflexivity.
        rewrite E. apply startswith_app. }
      apply startswith_window in Hs; [congruence|].
      rewrite length_app. simpl. lia.
  - intros k Hk. unfold pattern_html_fence.
    change (lit "```html" ++ [nl]) with HTML_FENCE_OPEN.
    rewrite run_chars.
    destruct (ci_startswith HTML_FENCE_OPEN _) eqn:E; [|reflexivity].
    exfalso.
    assert (Hs : ci_startswith HTML_FENCE_OPEN
                   (skipn k ((pre ++ firstn 7 opener)
                             ++ skipn 7 opener
                             ++ content ++ FENCE_CLOSE ++ post)) = true).
    { rewrite <- app_assoc.
      replace (firstn 7 opener ++ skipn 7 opener
               ++ content ++ FENCE_CLOSE ++ post)
        with (opener ++ content ++ FENCE_CLOSE ++ post)
        by (rewrite <- (firstn_skipn 7 opener) at 1;
            now rewrite <- app_assoc).
      exact E. }
    apply ci_startswith_window in Hs; [congruence|].
    rewrite length_app, length_firstn.
    change (List.length HTML_FENCE_OPEN) with 8%nat. lia.
Qed.

(** The same for the extractor: the stripped content of the leftmost
    labeled fence is the result, whatever else the text holds. *)
Lemma extract_first_html_fence (pre opener content post : str) :
  ci_eq opener HTML_FENCE_OPEN ->
  ci_contains HTML_FENCE_OPEN (pre ++ firstn 7 opener) = false ->
  contains FENCE_CLOSE (content ++ firstn 3 FENCE_CLOSE) = false ->
  extract_html_from_output (pre ++ opener ++ content ++ FENCE_CLOSE ++ post)
  = Some (strip content).
Proof.
  intros Ho Hfirst Hclose. apply extract_html_fence.
  now apply search_html_fence_first.
Qed.

(* ================================================================== *)
(** ** The scenarios of the specification *)
(* ================================================================== *)

(** Scenario A of the specification. *)
Example scenario_A :
  extract_html_from_output
    (lit "Here:" ++ [nl] ++ lit "```html" ++ [nl]
     ++ lit "<!DOCTYPE html><html><body>Hi</body></html>" ++ [nl] ++ lit "```")
  = Some (lit "<!DOCTYPE html><html><body>Hi</body></html>").
Proof. vm_compute. reflexivity. Qed.

(** Scenario B: no doctype token and no fence. *)
Example scenario_B :
  run_main basic_latin (quiet_env (lit "I could not build it."))
           (plain_args [lit "clock"])
  = (1%Z, {| stdout_lines :=
               [ROBOT ++ lit " Building HTML tool: clock"; [];
                HOURGLASS ++ lit " Calling html-tool-builder agent..."];
             stderr_lines := extraction_failure_message;
             files := []; browser := [] |}).
Proof. vm_compute. reflexivity. Qed.

(** Scenario D: the agent's command is missing; the program prints the
    hint and leaves before any extraction. *)
Example scenario_D :
  run_main basic_latin missing_agent_env (plain_args [lit "clock"])
  = (1%Z, {| stdout_lines :=
               [ROBOT ++ lit " Building HTML tool: clock"; [];
                HOURGLASS ++ lit " Calling html-tool-builder agent..."];
             stderr_lines :=
               [CROSS_MARK
                ++ lit " Amplifier not found. Please install it first:";
                lit "   uv tool install "
                ++ lit "git+https://github.com/microsoft/amplifier"];
             files := []; browser := [] |}).
Proof. vm_compute. reflexivity. Qed.

(* ================================================================== *)
(** ** The command: every way a run can end *)
(* ================================================================== *)

Section Endings.

Variable U : unicode.
Variable E : env.


(** X2.  When the agent ends with a non-zero status, the program
    prints one line with the agent's error stream and leaves with
    status 1: it extracts nothing, writes nothing and opens nothing,
    whatever the options. *)
Theorem agent_failure_stops_the_run (a : args) (err : str) :
  subprocess_run E (agent_command (join (lit " ") (description a)))
  = CalledProcessError err ->
  run_main U E a
  = (1%Z, {| stdout_lines := banner a;
             stderr_lines :=
               [CROSS_MARK ++ lit " Error calling amplifier agent: " ++ err];
             files := []; browser := [] |}).
Proof. intros H. unfold_run. rewrite H. reflexivity. Qed.

(** X3.  When the agent's command is not installed, the program prints
    the two lines of the installation hint and leaves with status 1,
    before any extraction, whatever the options. *)
Theorem missing_agent_stops_the_run (a : args) :
  subprocess_run E (agent_command (join (lit " ") (description a)))
  = FileNotFoundError ->
  run_main U E a
  = (1%Z, {| stdout_lines := banner a;
             stderr_lines :=
               [CROSS_MARK
                ++ lit " Amplifier not found. Please install it first:";
                lit "   uv tool install "
                ++ lit "git+https://github.com/microsoft/amplifier"];
             files := []; browser := [] |}).
Proof. intros H. unfold_run. rewrite H. reflexivity. Qed.


(** A run whose command line was accepted opens a page only when it
    succeeded with [--preview], and then once, at [file://] followed by
    the absolute path of the file that was written. *)
Lemma accepted_run_browser (a : args) :
  let r := run_main U E a in
  browser (snd r) =
  if preview a && (fst r =? 0)%Z
  then [lit "file://" ++ absolute E (Path E (output_file U a))]
  else [].
Proof.
  unfold_run.
  destruct (subprocess_run E _) as [out|err|];
    destruct (verbose a), (preview a); simpl_run; try reflexivity;
    destruct (py_not (extract_html_from_output out)); simpl_run;
    try reflexivity;
    destruct (write_bytes E _ _); simpl_run; reflexivity.
Qed.

(** X6.  [--verbose] changes nothing but the standard stream: the exit
    status, the error stream, the file written and the page opened are
    the same with and without it, and when the agent has answered the
    standard stream gains three lines around the raw answer, right
    after the banner. *)
Theorem verbose_only_adds_lines (a : args) :
  let quiet := run_main U E (with_verbose false a) in
  let loud := run_main U E (with_verbose true a) in
  fst loud = fst quiet
  /\ stderr_lines (snd loud) = stderr_lines (snd quiet)
  /\ files (snd loud) = files (snd quiet)
  /\ browser (snd loud) = browser (snd quiet)
  /\ stdout_lines (snd loud)
     = firstn 3 (stdout_lines (snd quiet))
       ++ match subprocess_run E
                  (agent_command (join (lit " ") (description a))) with
          | Completed agent_output => verbose_lines agent_output
          | _ => []
          end
       ++ skipn 3 (stdout_lines (snd quiet)).
Proof.
  unfold_run. unfold output_file. simpl_run.
  destruct (subprocess_run E _) as [out|err|]; simpl_run;
    try (repeat split; reflexivity).
  destruct (py_not (extract_html_from_output out)); simpl_run;
    try (repeat split; reflexivity).
  destruct (write_bytes E _ _); simpl_run;
    try (repeat split; reflexivity).
  destruct (preview a); simpl_run; repeat split; reflexivity.
Qed.


(** X8.  Without [--output], or with an empty one, a run that succeeds
    writes the document to the name generated from the words of the
    description joined by single spaces. *)
Theorem default_output_is_generated (a : args) (agent_output html : str) :
  output a = None \/ output a = Some [] ->
  subprocess_run E (agent_command (join (lit " ") (description a)))
  = Completed agent_output ->
  extract_html_from_output agent_output = Some html ->
  html <> [] ->
  write_bytes E
    (Path E (generate_filename U (join (lit " ") (description a))))
    (utf8 html) = None ->
  files (snd (run_main U E a))
  = [(Path E (generate_filename U (join (lit " ") (description a))),
      utf8 html)].
Proof.
  intros Hout Hrun Hhtml Hne Hwrite.
  assert (Hfile : output_file U a
                  = generate_filename U (join (lit " ") (description a))).
  { unfold output_file. destruct Hout as [-> | ->]; reflexivity. }
  rewrite <- Hfile in *.
  now destruct (main_success U E a agent_output html Hrun Hhtml Hne Hwrite)
    as (_ & _ & H & _).
Qed.


(** X5.  A page is opened only by a run whose command line was accepted
    with [--preview] and that ended with status 0, and then once, at
    [file://] followed by the absolute path of the file that was
    written.  A run that shows the help, a run argparse refuses and a
    run that fails open nothing, with [--preview] or without. *)
Theorem browser_opens_only_after_success (p : parsed) :
  let r := run_from_command_line U E p in
  browser (snd r) =
  match p with
  | Accepted a =>
      if preview a && (fst r =? 0)%Z
      then [lit "file://" ++ absolute E (Path E (output_file U a))]
      else []
  | UsageError _ | HelpRequested _ => []
  end.
Proof.
  destruct p as [a|message|help]; [|reflexivity|reflexivity].
  change (run_from_command_line U E (Accepted a)) with (run_main U E a).
  apply accepted_run_browser.
Qed.

End Endings.

Lemma agent_failure_stops_the_run_witness :
  let a := {| description := [lit "clock"]; output := Some (lit "c.html");
              preview := true; verbose := true |} in
  run_main basic_latin (failing_agent_env (lit "quota exceeded")) a
  = (1%Z, {| stdout_lines := banner a;
             stderr_lines :=
               [CROSS_MARK ++ lit " Error calling amplifier agent: "
                ++ lit "quota exceeded"];
             files := []; browser := [] |}).
Proof.
  apply (agent_failure_stops_the_run basic_latin
           (failing_agent_env (lit "quota exceeded"))
           {| description := [lit "clock"]; output := Some (lit "c.html");
              preview := true; verbose := true |}
           (lit "quota exceeded")).
  reflexivity.
Defined.

Lemma missing_agent_stops_the_run_witness :
  let a := {| description := [lit "clock"]; output := None;
              preview := true; verbose := true |} in
  fst (run_main basic_latin missing_agent_env a) = 1%Z
  /\ files (snd (run_main basic_latin missing_agent_env a)) = [].
Proof.
  cbv zeta.
  rewrite (missing_agent_stops_the_run basic_latin missing_agent_env
             {| description := [lit "clock"]; output := None;
                preview := true; verbose := true |} eq_refl).
  split; reflexivity.
Defined.



Lemma default_output_is_generated_witness :
  let a := {| description := [lit "World"; lit "Clock"]; output := Some [];
              preview := false; verbose := false |} in
  let E := quiet_env (fenced (lit "<p>12:00</p>")) in
  files (snd (run_main basic_latin E a))
  = [(lit "world-clock.html", utf8 (lit "<p>12:00</p>"))].
Proof.
  apply (default_output_is_generated basic_latin
           (quiet_env (fenced (lit "<p>12:00</p>")))
           {| description := [lit "World"; lit "Clock"]; output := Some [];
              preview := false; verbose := false |}
           (fenced (lit "<p>12:00</p>")) (lit "<p>12:00</p>")).
  - now right.
  - reflexivity.
  - vm_compute. reflexivity.
  - discriminate.
  - reflexivity.
Defined.

(* ================================================================== *)
(** ** The extractor returns a piece of the text *)
(* ================================================================== *)

Lemma slice_segment (s : str) (i j : Z) :
  exists pre post, s = pre ++ slice s i j ++ post.
Proof.
  unfold slice.
  set (a := Z.to_nat (clamp_index (len s) i)).
  set (n := Z.to_nat (clamp_index (len s) j - clamp_index (len s) i)).
  exists (firstn a s), (skipn n (skipn a s)).
  now rewrite (firstn_skipn n), (firstn_skipn a).
Qed.

Lemma segment_of_segment (s t u pre post p q : str) :
  s = pre ++ t ++ post -> t = p ++ u ++ q ->
  exists pre' post', s = pre' ++ u ++ post'.
Proof.
  intros -> ->. exists (pre ++ p), (q ++ post).
  now rewrite <- !app_assoc.
Qed.

Lemma search_group_segment (pattern : Re.regex) (output g : str) :
  In pattern patterns ->
  Re.search fl pattern output = Some g ->
  exists pre post, output = pre ++ g ++ post.
Proof.
  intros [<-|[<-|[<-|[]]]] H.
  - apply search_html_fence_sound in H as (pre & opener & post & -> & _).
    exists (pre ++ opener), (FENCE_CLOSE ++ post).
    now rewrite <- !app_assoc.
  - apply search_sound in H as (pre & rest & -> & H).
    apply run_plain_fence_sound in H as (d & body & post & -> & _).
    exists (pre ++ FENCE ++ [nl]), (FENCE_CLOSE ++ post).
    now rewrite <- !app_assoc.
  - apply search_bare_sound in H as (pre & d & mid & e & post & -> & _).
    now exists pre, post.
Qed.

(** X9.  A document the extractor returns is a piece of the agent's
    output, taken as it stands: the extractor adds and changes no
    character. *)
Theorem extracted_document_is_a_piece_of_the_output (output html : str) :
  extract_html_from_output output = Some html ->
  exists pre post, output = pre ++ html ++ post.
Proof.
  unfold extract_html_from_output.
  destruct (first_match patterns output) as [h|] eqn:Hm.
  - intros H. injection H as <-.
    assert (Hg : exists pattern g,
               In pattern patterns
               /\ Re.search fl pattern output = Some g /\ h = strip g).
    { revert Hm. generalize patterns as ps.
      induction ps as [|pattern ps IH]; simpl; [discriminate|].
      destruct (Re.search fl pattern output) as [g|] eqn:Hs.
      - intros H. injection H as <-. exists pattern, g. auto.
      - intros H. destruct (IH H) as (p' & g & Hin & Hs' & Hh).
        exists p', g. auto. }
    destruct Hg as (pattern & g & Hin & Hs & ->).
    destruct (search_group_segment _ _ _ Hin Hs) as (pre & post & Hout).
    destruct (strip_by_segment isspace g) as (p & q & Hg).
    exact (segment_of_segment _ _ _ _ _ _ _ Hout Hg).
  - unfold whole_output.
    destruct (contains DOCTYPE output); [|discriminate].
    destruct (negb _ && _); [|discriminate].
    intros H. injection H as <-.
    destruct (slice_segment output (find DOCTYPE output)
                (rfind END_HTML output + 7)) as (pre & post & Hout).
    destruct (strip_by_segment isspace
                (slice output (find DOCTYPE output)
                   (rfind END_HTML output + 7))) as (p & q & Hg).
    exact (segment_of_segment _ _ _ _ _ _ _ Hout Hg).
Qed.

Lemma extracted_document_is_a_piece_of_the_output_witness :
  exists pre post,
    lit "Done. <!doctype html><p>Hi</p></HTML> Enjoy!"
    = pre ++ lit "<!doctype html><p>Hi</p></HTML>" ++ post.
Proof.
  apply (extracted_document_is_a_piece_of_the_output
           (lit "Done. <!doctype html><p>Hi</p></HTML> Enjoy!")
           (lit "<!doctype html><p>Hi</p></HTML>")).
  vm_compute. reflexivity.
Defined.

(* ================================================================== *)
(** ** When no pattern matches *)
(* ================================================================== *)

(** X10.  When none of the three patterns matches, the extractor never
    returns a document: on a text that holds [</html>] it returns
    nothing, and on a text without it it returns nothing or a beginning
    of [<!DOCTYPE html>] of one to six characters. *)
Theorem unmatched_text_gives_no_document (output : str) :
  first_match patterns output = None ->
  (contains END_HTML output = true ->
   extract_html_from_output output = None)
  /\ (forall html,
        extract_html_from_output output = Some html ->
        exists n, (1 <= n <= 6)%nat /\ html = firstn n DOCTYPE).
Proof.
  intros Hnone.
  pose proof (whole_output_is_no_document output Hnone) as H.
  destruct (extract_html_from_output output) as [h|]; split.
  - destruct H as [H _]. congruence.
  - intros html Hh. injection Hh as <-. now destruct H.
  - reflexivity.
  - discriminate.
Qed.

Lemma unmatched_text_gives_no_document_witness :
  extract_html_from_output (lit "</html> then <!DOCTYPE html><html>") = None.
Proof.
  apply (unmatched_text_gives_no_document
           (lit "</html> then <!DOCTYPE html><html>"));
    vm_compute; reflexivity.
Defined.

(* ================================================================== *)
(** ** The patterns and the case of letters *)
(* ================================================================== *)

(** X11.  The three patterns do not see the case of ASCII letters: on
    two texts that differ only in the case of letters (in the fence
    label, the doctype token, the closing tag or anywhere else) the same
    rule decides, and the two documents differ only in the case of
    letters. *)
Theorem patterns_ignore_case (s s' : str) :
  ci_eq s s' ->
  ci_result (first_match patterns s) (first_match patterns s').
Proof. apply first_match_ci. Qed.

Lemma patterns_ignore_case_witness :
  ci_result
    (first_match patterns (lit "x <!DOCTYPE html><p>a</p></html> y"))
    (first_match patterns (lit "x <!doctype HTML><p>a</p></HTML> y")).
Proof.
  apply (patterns_ignore_case
           (lit "x <!DOCTYPE html><p>a</p></html> y")
           (lit "x <!doctype HTML><p>a</p></HTML> y")).
  vm_compute. reflexivity.
Defined.

(* ================================================================== *)
(** ** Which fence and which span are taken *)
(* ================================================================== *)

(** X12.  Of several fences labeled as HTML the leftmost is taken, and
    its content ends at the first closing fence line: the result is
    that content, stripped, whatever stands before and after. *)
Theorem leftmost_labeled_fence_is_extracted
        (pre opener content post : str) :
  ci_eq opener HTML_FENCE_OPEN ->
  ci_contains HTML_FENCE_OPEN (pre ++ firstn 7 opener) = false ->
  contains FENCE_CLOSE (content ++ firstn 3 FENCE_CLOSE) = false ->
  extract_html_from_output (pre ++ opener ++ content ++ FENCE_CLOSE ++ post)
  = Some (strip content).
Proof. apply extract_first_html_fence. Qed.

Lemma leftmost_labeled_fence_is_extracted_witness :
  extract_html_from_output
    (lit "First:" ++ [nl] ++ lit "```HTML" ++ [nl] ++ lit " <p>1</p>"
     ++ FENCE_CLOSE ++ [nl] ++ fenced (lit "<p>2</p>"))
  = Some (strip (lit " <p>1</p>")).
Proof.
  apply (leftmost_labeled_fence_is_extracted
           (lit "First:" ++ [nl]) (lit "```HTML" ++ [nl]) (lit " <p>1</p>")
           ([nl] ++ fenced (lit "<p>2</p>")));
    vm_compute; reflexivity.
Defined.

Lemma run_group_open (r : Re.regex) (s : str) (st : Re.capture) :
  Re.run fl (Re.GroupOpen :: r) s st
  = Re.run fl r s {| Re.recording := true; Re.grp := Re.grp st |}.
Proof. reflexivity. Qed.

Lemma run_group_close (r : Re.regex) (s : str) (st : Re.capture) :
  Re.run fl (Re.GroupClose :: r) s st
  = Re.run fl r s {| Re.recording := false; Re.grp := Re.grp st |}.
Proof. reflexivity. Qed.

Lemma pattern_bare_unfold :
  pattern_bare
  = Re.GroupOpen
      :: Re.chars DOCTYPE
      ++ Re.LazyDotStar :: Re.chars END_HTML ++ [Re.GroupClose].
Proof. reflexivity. Qed.

(** Rule 3 takes the leftmost doctype token and ends at the first
    closing tag after it. *)
Lemma search_bare_first (pre d mid e post : str) :
  ci_eq d DOCTYPE -> ci_eq e END_HTML ->
  ci_contains DOCTYPE (pre ++ firstn 14 d) = false ->
  ci_contains END_HTML (mid ++ firstn 6 e) = false ->
  Re.search fl pattern_bare (pre ++ d ++ mid ++ e ++ post)
  = Some (d ++ mid ++ e).
Proof.
  intros Hd He Hfirst Hclose.
  pose proof (ci_eq_length _ _ Hd) as Hld.
  pose proof (ci_eq_length _ _ He) as Hle.
  change (List.length DOCTYPE) with 15%nat in Hld.
  change (List.length END_HTML) with 7%nat in Hle.
  rewrite pattern_bare_unfold, search_skip.
  - apply search_here.
    rewrite run_group_open, (run_chars_app _ _ _ _ _ Hd), consume_all_open.
    rewrite run_lazy_first.
    + apply run_lazy_here.
      rewrite consume_all_open, (run_chars_app _ _ _ _ _ He),
        consume_all_open.
      simpl. rewrite !rev_app_distr, !rev_involutive. simpl.
      now rewrite <- app_assoc.
    + intros k Hk. rewrite run_chars.
      destruct (ci_startswith END_HTML _) eqn:E; [|reflexivity].
      exfalso.
      assert (Hs : ci_startswith END_HTML
                     (skipn k ((mid ++ firstn 6 e) ++ skipn 6 e ++ post))
                   = true).
      { rewrite <- app_assoc.
        replace (firstn 6 e ++ skipn 6 e ++ post) with (e ++ post)
          by (rewrite <- (firstn_skipn 6 e) at 1; now rewrite <- app_assoc).
        exact E. }
      apply ci_startswith_window in Hs; [congruence|].
      rewrite length_app, length_firstn.
      change (List.length END_HTML) with 7%nat. lia.
  - intros k Hk. rewrite run_group_open, run_chars.
    destruct (ci_startswith DOCTYPE _) eqn:E; [|reflexivity].
    exfalso.
    assert (Hs : ci_startswith DOCTYPE
                   (skipn k ((pre ++ firstn 14 d)
                             ++ skipn 14 d ++ mid ++ e ++ post)) = true).
    { rewrite <- app_assoc.
      replace (firstn 14 d ++ skipn 14 d ++ mid ++ e ++ post)
        with (d ++ mid ++ e ++ post)
        by (rewrite <- (firstn_skipn 14 d) at 1; now rewrite <- app_assoc).
      exact E. }
    apply ci_startswith_window in Hs; [congruence|].
    rewrite length_app, length_firstn.
    change (List.length DOCTYPE) with 15%nat. lia.
Qed.

(** A doctype token begins with [<] and a closing tag ends with [>],
    in every casing. *)
Lemma doctype_first_char (d : str) :
  ci_eq d DOCTYPE -> exists d', d = 60%N :: d'.
Proof.
  intros H. change DOCTYPE with ([60%N] ++ lit "!DOCTYPE html>") in H.
  apply ci_eq_app_split in H as (xa & xb & -> & Ha & _).
  apply ci_eq_nonletters in Ha;
    [|repeat constructor; unfold nonletter; lia].
  subst xa. now exists xb.
Qed.

Lemma end_html_last_char (e : str) :
  ci_eq e END_HTML -> exists e', e = e' ++ [62%N].
Proof.
  intros H. change END_HTML with (lit "</html" ++ [62%N]) in H.
  apply ci_eq_app_split in H as (xa & xb & -> & _ & Hb).
  apply ci_eq_nonletters in Hb;
    [|repeat constructor; unfold nonletter; lia].
  subst xb. now exists xa.
Qed.

Lemma strip_between (c z : char) (a m b : str) :
  isspace c = false -> isspace z = false ->
  strip ((c :: a) ++ m ++ b ++ [z]) = (c :: a) ++ m ++ b ++ [z].
Proof.
  intros Hc Hz.
  assert (E : (c :: a) ++ m ++ b ++ [z] = c :: (a ++ m ++ b) ++ [z])
    by (simpl; now rewrite <- !app_assoc).
  rewrite E. now apply strip_by_fixed.
Qed.

(** X13.  On a text without a code fence, the document is the span from
    the leftmost doctype token to the first closing html tag after it,
    both in any casing; what follows that tag is left out, a later
    closing tag included. *)
Theorem leftmost_bare_span_is_extracted (pre d mid e post : str) :
  ci_eq d DOCTYPE -> ci_eq e END_HTML ->
  contains FENCE (pre ++ d ++ mid ++ e ++ post) = false ->
  ci_contains DOCTYPE (pre ++ firstn 14 d) = false ->
  ci_contains END_HTML (mid ++ firstn 6 e) = false ->
  extract_html_from_output (pre ++ d ++ mid ++ e ++ post)
  = Some (d ++ mid ++ e).
Proof.
  intros Hd He Hfence Hfirst Hclose.
  unfold extract_html_from_output, patterns. simpl first_match.
  destruct (Re.search search_flags pattern_html_fence _) eqn:E1.
  { apply search_html_fence_contains in E1. congruence. }
  destruct (Re.search search_flags pattern_plain_fence _) eqn:E2.
  { apply search_plain_fence_contains in E2. congruence. }
  rewrite (search_bare_first pre d mid e post Hd He Hfirst Hclose).
  do 2 f_equal.
  destruct (doctype_first_char d Hd) as [d' ->].
  destruct (end_html_last_char e He) as [e' ->].
  apply strip_between; reflexivity.
Qed.

Lemma leftmost_bare_span_is_extracted_witness :
  extract_html_from_output
    (lit "Here it is: <!doctype html><html><body>Hi</body></HTML>"
     ++ lit " and a stray </html>")
  = Some (lit "<!doctype html><html><body>Hi</body></HTML>").
Proof.
  apply (leftmost_bare_span_is_extracted
           (lit "Here it is: ") (lit "<!doctype html>")
           (lit "<html><body>Hi</body>") (lit "</HTML>")
           (lit " and a stray </html>"));
    vm_compute; reflexivity.
Defined.

(* ================================================================== *)
(** ** Rule 2: an unlabeled fence *)
(* ================================================================== *)

Lemma search_html_fence_needs_opener (output g : str) :
  Re.search fl pattern_html_fence output = Some g ->
  ci_contains HTML_FENCE_OPEN output = true.
Proof.
  intros H.
  apply search_html_fence_sound in H as (pre & opener & post & -> & Ho).
  now apply ci_contains_app.
Qed.

Lemma ci_eq_app (a a' b b' : str) :
  ci_eq a a' -> ci_eq b b' -> ci_eq (a ++ b) (a' ++ b').
Proof. unfold ci_eq. rewrite !map_app. now intros -> ->. Qed.

Lemma pattern_plain_fence_unfold :
  pattern_plain_fence
  = Re.chars (FENCE ++ [nl])
    ++ Re.GroupOpen
       :: Re.chars DOCTYPE
       ++ Re.LazyDotStar :: Re.GroupClose :: Re.chars FENCE_CLOSE.
Proof. reflexivity. Qed.

(** Where rule 2 matches, the text goes on with an opening fence line
    and a doctype token. *)
Lemma run_plain_fence_needs_opener (s g : str) :
  Re.run fl pattern_plain_fence s no_capture = Some g ->
  ci_startswith (FENCE ++ [nl] ++ DOCTYPE) s = true.
Proof.
  intros H.
  apply run_plain_fence_sound in H as (d & body & post & -> & -> & Hd).
  replace (FENCE ++ [nl] ++ (d ++ body) ++ FENCE_CLOSE ++ post)
    with ((FENCE ++ [nl] ++ d) ++ body ++ FENCE_CLOSE ++ post)
    by now rewrite <- !app_assoc.
  apply ci_startswith_app.
  apply ci_eq_app; [reflexivity|]. now apply ci_eq_app.
Qed.

(** Rule 2 takes the leftmost unlabeled fence whose content begins with
    a doctype token, up to the first closing fence line. *)
Lemma search_plain_fence_first (pre d body post : str) :
  ci_eq d DOCTYPE ->
  ci_contains (FENCE ++ [nl] ++ DOCTYPE)
              (pre ++ firstn 18 (FENCE ++ [nl] ++ d)) = false ->
  contains FENCE_CLOSE (body ++ firstn 3 FENCE_CLOSE) = false ->
  Re.search fl pattern_plain_fence
            (pre ++ (FENCE ++ [nl] ++ d) ++ body ++ FENCE_CLOSE ++ post)
  = Some (d ++ body).
Proof.
  intros Hd Hfirst Hclose.
  pose proof (ci_eq_length _ _ Hd) as Hld.
  change (List.length DOCTYPE) with 15%nat in Hld.
  rewrite search_skip.
  - apply search_here. rewrite pattern_plain_fence_unfold.
    replace ((FENCE ++ [nl] ++ d) ++ body ++ FENCE_CLOSE ++ post)
      with ((FENCE ++ [nl]) ++ d ++ body ++ FENCE_CLOSE ++ post)
      by now rewrite <- !app_assoc.
    rewrite (run_chars_app (FENCE ++ [nl]) (FENCE ++ [nl]))
      by reflexivity.
    rewrite consume_all_closed, run_group_open.
    rewrite (run_chars_app _ _ _ _ _ Hd), consume_all_open.
    rewrite run_lazy_first.
    + apply run_lazy_here.
      rewrite consume_all_open, run_close_fence_app.
      rewrite !rev_app_distr, !rev_involutive. reflexivity.
    + intros k Hk. rewrite consume_all_open.
      destruct (Re.run fl _ _ _) as [g|] eqn:E; [|reflexivity].
      exfalso. apply run_close_fence in E as [_ [post' E]].
      assert (Hs : startswith FENCE_CLOSE
                     (skipn k ((body ++ firstn 3 FENCE_CLOSE)
                               ++ skipn 3 FENCE_CLOSE ++ post)) = true).
      { rewrite <- app_assoc.
        replace (firstn 3 FENCE_CLOSE ++ skipn 3 FENCE_CLOSE ++ post)
          with (FENCE_CLOSE ++ post) by reflexivity.
        rewrite E. apply startswith_app. }
      apply startswith_window in Hs; [congruence|].
      rewrite length_app. simpl. lia.
  - intros k Hk.
    destruct (Re.run fl pattern_plain_fence _ no_capture) as [g|] eqn:E;
      [|reflexivity].
    exfalso. apply run_plain_fence_needs_opener in E.
    assert (Hs : ci_startswith (FENCE ++ [nl] ++ DOCTYPE)
                   (skipn k ((pre ++ firstn 18 (FENCE ++ [nl] ++ d))
                             ++ skipn 18 (FENCE ++ [nl] ++ d)
                             ++ body ++ FENCE_CLOSE ++ post)) = true).
    { rewrite <- app_assoc.
      replace (firstn 18 (FENCE ++ [nl] ++ d)
               ++ skipn 18 (FENCE ++ [nl] ++ d)
               ++ body ++ FENCE_CLOSE ++ post)
        with ((FENCE ++ [nl] ++ d) ++ body ++ FENCE_CLOSE ++ post)
        by (rewrite <- (firstn_skipn 18 (FENCE ++ [nl] ++ d)) at 1;
            now rewrite <- app_assoc).
      exact E. }
    apply ci_startswith_window in Hs; [congruence|].
    change (List.length (FENCE ++ [nl] ++ DOCTYPE)) with 19%nat.
    rewrite length_app, firstn_length_le; [lia|].
    rewrite !length_app. simpl. lia.
Qed.

Lemma lstrip_by_app_kept (f : char -> bool) (a : str) (z : char) (b : str) :
  f z = false ->
  lstrip_by f (a ++ z :: b) = lstrip_by f a ++ z :: b.
Proof.
  intros Hz. induction a as [|x a IH]; simpl.
  - now rewrite Hz.
  - destruct (f x); [exact IH | reflexivity].
Qed.

(** Stripping a text that begins with a doctype token leaves the token
    in place. *)
Lemma strip_keeps_doctype (d body : str) :
  ci_eq d DOCTYPE ->
  strip (d ++ body) = d ++ rstrip_by isspace body.
Proof.
  intros Hd.
  destruct (doctype_first_char d Hd) as [d' ->].
  assert (Hlast : exists d'', 60%N :: d' = d'' ++ [62%N]).
  { change DOCTYPE with (lit "<!DOCTYPE html" ++ [62%N]) in Hd.
    apply ci_eq_app_split in Hd as (xa & xb & E & _ & Hb).
    apply ci_eq_nonletters in Hb;
      [|repeat constructor; unfold nonletter; lia].
    subst xb. now exists xa. }
  destruct Hlast as [d'' Hlast].
  unfold strip, strip_by, rstrip_by.
  change ((60%N :: d') ++ body) with (60%N :: d' ++ body).
  rewrite lstrip_by_fixed by reflexivity.
  change (60%N :: d' ++ body) with ((60%N :: d') ++ body).
  rewrite Hlast, rev_app_distr, rev_app_distr. simpl rev at 2.
  simpl app at 2.
  rewrite lstrip_by_app_kept by reflexivity.
  rewrite rev_app_distr. simpl rev at 1. rewrite rev_involutive.
  reflexivity.
Qed.

(** X14.  When the text holds no fence labeled as HTML, the leftmost
    unlabeled fence whose first line begins with a doctype token (in
    any casing) is taken, up to the first closing fence line: the
    result is the token and what follows it, with whitespace stripped
    at the end. *)
Theorem unlabeled_fence_with_doctype_is_extracted (pre d body post : str) :
  ci_eq d DOCTYPE ->
  ci_contains HTML_FENCE_OPEN
    (pre ++ (FENCE ++ [nl] ++ d) ++ body ++ FENCE_CLOSE ++ post) = false ->
  ci_contains (FENCE ++ [nl] ++ DOCTYPE)
              (pre ++ firstn 18 (FENCE ++ [nl] ++ d)) = false ->
  contains FENCE_CLOSE (body ++ firstn 3 FENCE_CLOSE) = false ->
  extract_html_from_output
    (pre ++ (FENCE ++ [nl] ++ d) ++ body ++ FENCE_CLOSE ++ post)
  = Some (d ++ rstrip_by isspace body).
Proof.
  intros Hd Hlabel Hfirst Hclose.
  pose proof (search_plain_fence_first pre d body post Hd Hfirst Hclose)
    as Hplain.
  remember (pre ++ (FENCE ++ [nl] ++ d) ++ body ++ FENCE_CLOSE ++ post)
    as text eqn:Htext.
  unfold extract_html_from_output, patterns. simpl first_match.
  destruct (Re.search search_flags pattern_html_fence text) eqn:E1.
  { apply search_html_fence_needs_opener in E1. congruence. }
  rewrite Hplain. now rewrite (strip_keeps_doctype d body Hd).
Qed.

Lemma unlabeled_fence_with_doctype_is_extracted_witness :
  extract_html_from_output
    (lit "Tool:" ++ [nl] ++ (FENCE ++ [nl] ++ lit "<!doctype html>")
     ++ lit "<p>Hi</p>  " ++ FENCE_CLOSE ++ lit " done")
  = Some (lit "<!doctype html>" ++ rstrip_by isspace (lit "<p>Hi</p>  ")).
Proof.
  apply (unlabeled_fence_with_doctype_is_extracted
           (lit "Tool:" ++ [nl]) (lit "<!doctype html>")
           (lit "<p>Hi</p>  ") (lit " done"));
    vm_compute; reflexivity.
Defined.

(* ================================================================== *)
(** ** The characters of a generated name *)
(* ================================================================== *)

(** The words of [s.split()] are not empty and hold no whitespace. *)
Lemma split_run_words (s cur w : str) :
  Forall (fun c => isspace c = false) cur ->
  In w (split_run s cur) ->
  w <> [] /\ Forall (fun c => isspace c = false) w.
Proof.
  revert cur. induction s as [|x s IH]; intros cur Hcur; simpl.
  - destruct cur as [|y cur]; [contradiction|].
    intros [<-|[]]. split.
    + simpl. now destruct (rev cur).
    + now apply Forall_rev.
  - destruct (isspace x) eqn:Hx.
    + destruct cur as [|y cur].
      * now apply IH.
      * intros [<-|Hw].
        -- split; [simpl; now destruct (rev cur) | now apply Forall_rev].
        -- now apply (IH []).
    + apply IH. now constructor.
Qed.

Lemma split_words (s w : str) :
  In w (split s) -> plain_word w.
Proof. apply split_run_words. constructor. Qed.

Lemma join_chars (sep : str) (l : list str) (c : char) :
  In c (join sep l) -> In c sep \/ exists w, In w l /\ In c w.
Proof.
  induction l as [|x l IH]; simpl; [contradiction|].
  destruct l as [|y l].
  - intros H. right. exists x. auto.
  - rewrite !in_app_iff. intros [H|[H|H]].
    + right. exists x. auto.
    + now left.
    + destruct (IH H) as [H'|(w & Hw & Hc)]; [now left|].
      right. exists w. split; [now right | exact Hc].
Qed.

Lemma strip_by_chars (f : char -> bool) (w : str) (c : char) :
  In c (strip_by f w) -> In c w.
Proof.
  destruct (strip_by_segment f w) as (p & q & Hw). intros H.
  rewrite Hw, !in_app_iff. auto.
Qed.

Section NameCharacters.

Variable U : unicode.

(** A character of the name is a character of [-] or [.html], or comes
    from a word among the first four that passed the test. *)
Lemma generate_filename_chars (d : str) (c : char) :
  In c (generate_filename U d) ->
  c = HYPHEN \/ In c (lit ".html")
  \/ exists w, In w (firstn 4 (split (lower U d)))
               /\ keeps U w = true /\ In c w.
Proof.
  unfold generate_filename. rewrite in_app_iff. intros [H|H]; [|auto].
  apply join_chars in H as [[<-|[]]|(k & Hk & Hc)]; [now left|].
  apply in_map_iff in Hk as (w & <- & Hw).
  apply filter_In in Hw as [Hin Hkeep].
  right. right. exists w. repeat split; try assumption.
  eapply strip_by_chars. exact Hc.
Qed.

(** X15.  A generated name holds no whitespace character, whatever the
    description. *)
Theorem generated_name_has_no_whitespace (d : str) (c : char) :
  In c (generate_filename U d) -> isspace c = false.
Proof.
  intros H.
  apply generate_filename_chars in H as [->|[H|(w & Hw & _ & Hc)]].
  - reflexivity.
  - simpl in H. repeat (destruct H as [<-|H]; [reflexivity|]).
    contradiction.
  - apply In_firstn, split_words in Hw. destruct Hw as [_ Hw].
    rewrite Forall_forall in Hw. now apply Hw.
Qed.

(** X16.  When none of the first four words holds a hyphen, every
    character of the name is alphanumeric, a hyphen, or a character of
    [.html]: no separator of paths and no punctuation gets into the
    name. *)
Theorem generated_name_is_alphanumeric (d : str) (c : char) :
  Forall (fun w => mem HYPHEN w = false) (firstn 4 (split (lower U d))) ->
  In c (generate_filename U d) ->
  isalnum_char U c = true \/ c = HYPHEN \/ In c (lit ".html").
Proof.
  intros Hfree H.
  apply generate_filename_chars in H as [->|[H|(w & Hw & Hkeep & Hc)]];
    [auto | auto |].
  left. rewrite Forall_forall in Hfree.
  unfold keeps in Hkeep. rewrite (Hfree w Hw), orb_false_r in Hkeep.
  unfold isalnum in Hkeep. destruct w as [|x w]; [discriminate|].
  rewrite forallb_forall in Hkeep. now apply Hkeep.
Qed.

End NameCharacters.

Lemma generated_name_has_no_whitespace_witness :
  isspace 45%N = false.
Proof.
  apply (generated_name_has_no_whitespace basic_latin
           (lit "  Tic  Tac" ++ [9%N] ++ lit "Toe ") 45%N).
  vm_compute. tauto.
Defined.

Lemma generated_name_is_alphanumeric_witness :
  isalnum_char basic_latin 116%N = true
  \/ 116%N = HYPHEN \/ In 116%N (lit ".html").
Proof.
  apply (generated_name_is_alphanumeric basic_latin
           (lit "Tic Tac Toe!") 116%N).
  - vm_compute. repeat constructor.
  - vm_compute. tauto.
Defined.

(* ================================================================== *)
(** ** A name that is only the extension *)
(* ================================================================== *)

Lemma lstrip_by_nil (f : char -> bool) (s : str) :
  lstrip_by f s = [] -> Forall (fun c => f c = true) s.
Proof.
  induction s as [|x s IH]; simpl; [constructor|].
  destruct (f x) eqn:Hx; [|discriminate].
  intros H. constructor; [exact Hx | now apply IH].
Qed.

(** Only a string of stripped characters is stripped to nothing. *)
Lemma strip_by_nil (f : char -> bool) (s : str) :
  strip_by f s = [] -> Forall (fun c => f c = true) s.
Proof.
  unfold strip_by, rstrip_by. intros H.
  apply (f_equal (@rev char)) in H. rewrite rev_involutive in H.
  simpl in H. apply lstrip_by_nil, Forall_rev in H.
  rewrite rev_involutive in H.
  destruct (lstrip_by f s) as [|c t] eqn:E.
  - now apply lstrip_by_nil.
  - apply lstrip_by_head in E. inversion H; subst. congruence.
Qed.

Lemma join_nil (sep : str) (l : list str) :
  sep <> [] -> join sep l = [] -> l = [] \/ l = [[]].
Proof.
  intros Hsep. destruct l as [|x [|y l]]; simpl.
  - now left.
  - intros ->. now right.
  - intros H. apply app_eq_nil in H as [_ H].
    apply app_eq_nil in H as [H _]. contradiction.
Qed.

Lemma filter_nil {A : Type} (f : A -> bool) (l : list A) :
  filter f l = [] <-> Forall (fun x => f x = false) l.
Proof.
  induction l as [|x l IH]; simpl.
  - split; [constructor | reflexivity].
  - destruct (f x) eqn:Hx; split.
    + discriminate.
    + intros H. inversion H; subst. congruence.
    + intros H. constructor; [exact Hx | now apply IH].
    + intros H. inversion H; subst. now apply IH.
Qed.

(** X17.  When no punctuation character counts as alphanumeric, the
    name is the bare extension [.html] exactly when none of the first
    four words passes the test, as for an empty description or one of
    punctuation only: a word that is kept always leaves something in
    the name. *)
Theorem bare_extension_iff_no_word_kept (U : unicode) (d : str) :
  (forall c, mem c PUNCTUATION = true -> isalnum_char U c = false) ->
  generate_filename U d = lit ".html"
  <-> Forall (fun w => keeps U w = false) (firstn 4 (split (lower U d))).
Proof.
  intros Hpunct. unfold generate_filename.
  set (words := firstn 4 (split (lower U d))).
  split.
  - intros H.
    change (lit ".html") with ([] ++ lit ".html") in H at 2.
    apply app_inv_tail in H.
    apply join_nil in H; [|discriminate].
    destruct H as [H|H].
    + apply map_eq_nil in H. now apply filter_nil.
    + exfalso.
      destruct (filter (keeps U) words) as [|w [|w' l]] eqn:E;
        try discriminate H.
      injection H as H.
      assert (Hkeep : keeps U w = true).
      { assert (Hin : In w (filter (keeps U) words))
          by (rewrite E; now left).
        now apply filter_In in Hin. }
      apply strip_by_nil in H. rewrite Forall_forall in H.
      unfold keeps in Hkeep. apply orb_prop in Hkeep as [Ha|Hh].
      * unfold isalnum in Ha. destruct w as [|c w]; [discriminate|].
        simpl in Ha. apply andb_prop in Ha as [Ha _].
        rewrite (Hpunct c) in Ha; [discriminate|].
        apply (H c). now left.
      * unfold mem in Hh. apply existsb_exists in Hh as (x & Hx & Ex).
        apply N.eqb_eq in Ex. subst x.
        specialize (H HYPHEN Hx). vm_compute in H. discriminate H.
  - intros H. apply filter_nil in H. now rewrite H.
Qed.

Lemma bare_extension_iff_no_word_kept_witness :
  generate_filename basic_latin (lit "  ??? ... !!!  ") = lit ".html"
  <-> Forall (fun w => keeps basic_latin w = false)
             (firstn 4 (split (lower basic_latin (lit "  ??? ... !!!  ")))).
Proof.
  apply (bare_extension_iff_no_word_kept basic_latin
           (lit "  ??? ... !!!  ")).
  intros c Hc. unfold mem, PUNCTUATION in Hc.
  apply existsb_exists in Hc as (x & Hx & Ex).
  apply N.eqb_eq in Ex. subst x.
  vm_compute in Hx.
  repeat (destruct Hx as [<-|Hx]; [reflexivity|]). contradiction.
Defined.

(* ================================================================== *)
(** ** Joining the words and splitting them again *)
(* ================================================================== *)

Lemma split_run_app_word (w s cur : str) :
  Forall (fun c => isspace c = false) w ->
  split_run (w ++ s) cur = split_run s (rev w ++ cur).
Proof.
  intros Hw. revert cur.
  induction Hw as [|x w Hx Hw IH]; intros cur; [reflexivity|].
  simpl. rewrite Hx, IH. now rewrite <- app_assoc.
Qed.

Lemma split_run_space (c : char) (s cur : str) :
  isspace c = true -> cur <> [] ->
  split_run (c :: s) cur = rev cur :: split_run s [].
Proof.
  intros Hc Hcur. simpl. rewrite Hc.
  destruct cur; [contradiction | reflexivity].
Qed.

(** [' '.join(words).split()] gives the words back when none of them is
    empty or holds whitespace. *)
Lemma split_join (ws : list str) :
  Forall plain_word ws -> split (join (lit " ") ws) = ws.
Proof.
  unfold split. induction 1 as [|w ws [Hne Hw] Hws IH]; [reflexivity|].
  assert (Hrev : rev w <> []).
  { intros E. apply (f_equal (@rev char)) in E.
    rewrite rev_involutive in E. contradiction. }
  destruct ws as [|w' ws'].
  - simpl join. rewrite <- (app_nil_r w) at 1.
    rewrite split_run_app_word by exact Hw. rewrite app_nil_r. simpl.
    destruct (rev w) eqn:E; [contradiction|].
    now rewrite <- E, rev_involutive.
  - change (join (lit " ") (w :: w' :: ws'))
      with (w ++ 32%N :: join (lit " ") (w' :: ws')).
    rewrite split_run_app_word by exact Hw. rewrite app_nil_r.
    rewrite split_run_space by (reflexivity || exact Hrev).
    now rewrite rev_involutive, IH.
Qed.

Lemma map_fold_join (ws : list str) :
  map Re.fold (join (lit " ") ws) = join (lit " ") (map (map Re.fold) ws).
Proof.
  induction ws as [|w ws IH]; [reflexivity|].
  destruct ws as [|w' ws']; [reflexivity|].
  change (join (lit " ") (w :: w' :: ws'))
    with (w ++ lit " " ++ join (lit " ") (w' :: ws')).
  rewrite !map_app, IH. reflexivity.
Qed.

(** Whitespace among the printable ASCII characters: none. *)
Lemma isspace_printable (x : char) :
  (33 <= x <= 126)%N -> isspace x = false.
Proof.
  intros Hx. unfold isspace.
  replace (x <=? 13)%N with false by (symmetry; apply N.leb_gt; lia).
  replace (x <=? 32)%N with false by (symmetry; apply N.leb_gt; lia).
  replace (8192 <=? x)%N with false by (symmetry; apply N.leb_gt; lia).
  repeat match goal with
         | |- context [(x =? ?n)%N] =>
             replace (x =? n)%N with false
               by (symmetry; apply N.eqb_neq; lia)
         end.
  now rewrite !andb_false_r.
Qed.

(** A digit or a letter of Basic Latin. *)
Lemma alnum_range (c : char) :
  isalnum_char basic_latin c = true ->
  (48 <= c <= 57 \/ 65 <= c <= 90 \/ 97 <= c <= 122)%N.
Proof.
  simpl. rewrite !orb_true_iff, !andb_true_iff, !N.leb_le. tauto.
Qed.

Lemma alnum_of_range (c : char) :
  (48 <= c <= 57 \/ 65 <= c <= 90 \/ 97 <= c <= 122)%N ->
  isalnum_char basic_latin c = true.
Proof.
  simpl. rewrite !orb_true_iff, !andb_true_iff, !N.leb_le. tauto.
Qed.

Lemma alnum_fold (c : char) :
  isalnum_char basic_latin c = true ->
  isalnum_char basic_latin (Re.fold c) = true.
Proof.
  intros H. apply alnum_range in H. apply alnum_of_range.
  unfold Re.fold.
  destruct ((65 <=? c) && (c <=? 90))%N eqn:E.
  - apply andb_prop in E as [E1 E2].
    apply N.leb_le in E1. apply N.leb_le in E2. lia.
  - exact H.
Qed.

Lemma alnum_not_punctuation (c : char) :
  isalnum_char basic_latin c = true -> mem c PUNCTUATION = false.
Proof.
  intros H. apply alnum_range in H. unfold mem, PUNCTUATION. simpl.
  repeat match goal with
         | |- context [(c =? ?n)%N] =>
             replace (c =? n)%N with false
               by (symmetry; apply N.eqb_neq; lia)
         end.
  reflexivity.
Qed.

Lemma lstrip_by_none (f : char -> bool) (s : str) :
  Forall (fun c => f c = false) s -> lstrip_by f s = s.
Proof. intros [|x t Hx _]; simpl; [reflexivity | now rewrite Hx]. Qed.

Lemma strip_by_none (f : char -> bool) (s : str) :
  Forall (fun c => f c = false) s -> strip_by f s = s.
Proof.
  intros H. unfold strip_by, rstrip_by.
  rewrite (lstrip_by_none f s H), lstrip_by_none by now apply Forall_rev.
  apply rev_involutive.
Qed.

Lemma filter_all {A : Type} (f : A -> bool) (l : list A) :
  Forall (fun x => f x = true) l -> filter f l = l.
Proof.
  induction 1 as [|x l Hx _ IH]; simpl; [reflexivity|].
  now rewrite Hx, IH.
Qed.

Lemma map_fixed {A : Type} (f : A -> A) (l : list A) :
  Forall (fun x => f x = x) l -> map f l = l.
Proof.
  induction 1 as [|x l Hx _ IH]; simpl; [reflexivity|].
  now rewrite Hx, IH.
Qed.

(** X18.  For words of ASCII digits and letters, given one by one on
    the command line, the name is the first four words in lower case
    joined by hyphens, followed by [.html]: joining the words with
    spaces in [main] and splitting the description in the generator
    gives the words back. *)
Theorem plain_words_give_their_slug (U : unicode) (ws : list str) :
  right_on_ascii U ->
  Forall (fun w => w <> []
                   /\ Forall (fun c => isalnum_char basic_latin c = true) w)
         ws ->
  generate_filename U (join (lit " ") ws)
  = join (lit "-") (firstn 4 (map (map Re.fold) ws)) ++ lit ".html".
Proof.
  intros HU Hws. rewrite Forall_forall in Hws.
  assert (Hfolded : forall w, In w (map (map Re.fold) ws) ->
            w <> []
            /\ Forall (fun c => isalnum_char basic_latin c = true) w).
  { intros w Hw. apply in_map_iff in Hw as (w0 & <- & Hw0).
    destruct (Hws w0 Hw0) as [Hne Hal]. split.
    - destruct w0; [contradiction | discriminate].
    - rewrite Forall_forall in *. intros c Hc.
      apply in_map_iff in Hc as (c0 & <- & Hc0). now apply alnum_fold, Hal. }
  rewrite (generate_filename_ascii U _ HU).
  2:{ unfold is_ascii. apply Forall_forall. intros c Hc.
      apply join_chars in Hc as [[<-|[]]|(w & Hw & Hc)]; [reflexivity|].
      destruct (Hws w Hw) as [_ Hal]. rewrite Forall_forall in Hal.
      specialize (Hal c Hc). apply alnum_range in Hal. lia. }
  unfold generate_filename.
  change (lower basic_latin (join (lit " ") ws))
    with (map Re.fold (join (lit " ") ws)).
  rewrite map_fold_join, split_join.
  2:{ apply Forall_forall. intros w Hw.
      destruct (Hfolded w Hw) as [Hne Hal]. split; [exact Hne|].
      rewrite Forall_forall in *. intros c Hc.
      specialize (Hal c Hc). apply alnum_range in Hal.
      apply isspace_printable. lia. }
  set (words := firstn 4 (map (map Re.fold) ws)).
  assert (Hwords : forall w, In w words ->
            w <> []
            /\ Forall (fun c => isalnum_char basic_latin c = true) w)
    by (intros w Hw; apply Hfolded; eapply In_firstn; exact Hw).
  rewrite filter_all.
  2:{ apply Forall_forall. intros w Hw.
      destruct (Hwords w Hw) as [Hne Hal].
      unfold keeps, isalnum. destruct w as [|c w]; [contradiction|].
      apply orb_true_intro. left. apply forallb_forall.
      rewrite Forall_forall in Hal. exact Hal. }
  rewrite map_fixed; [reflexivity|].
  apply Forall_forall. intros w Hw.
  destruct (Hwords w Hw) as [_ Hal].
  apply strip_by_none. rewrite Forall_forall in *.
  intros c Hc. now apply alnum_not_punctuation, Hal.
Qed.

Lemma plain_words_give_their_slug_witness :
  generate_filename basic_latin
    (join (lit " ") [lit "JSON"; lit "to"; lit "YAML"; lit "Converter";
                     lit "v2"])
  = lit "json-to-yaml-converter.html".
Proof.
  apply (plain_words_give_their_slug basic_latin
           [lit "JSON"; lit "to"; lit "YAML"; lit "Converter"; lit "v2"]).
  - split; intros; reflexivity.
  - repeat constructor; discriminate.
Defined.

(* ================================================================== *)
(** ** A word with a hyphen passes as it is *)
(* ================================================================== *)

Lemma strip_by_ends (f : char -> bool) (s : str) :
  (forall c t, s = c :: t -> f c = false) ->
  (forall t c, s = t ++ [c] -> f c = false) ->
  strip_by f s = s.
Proof.
  intros Hfirst Hlast. unfold strip_by, rstrip_by.
  assert (Hl : lstrip_by f s = s).
  { destruct s as [|c t]; [reflexivity|].
    apply lstrip_by_fixed. now apply (Hfirst c t). }
  rewrite Hl.
  assert (Hr : lstrip_by f (rev s) = rev s).
  { destruct (rev s) as [|c r] eqn:E; [reflexivity|].
    apply lstrip_by_fixed. apply (Hlast (rev r) c).
    apply (f_equal (@rev char)) in E. rewrite rev_involutive in E.
    exact E. }
  rewrite Hr. apply rev_involutive.
Qed.

Lemma punctuation_fold (c : char) :
  mem (Re.fold c) PUNCTUATION = mem c PUNCTUATION.
Proof.
  unfold Re.fold.
  destruct ((65 <=? c) && (c <=? 90))%N eqn:E; [|reflexivity].
  apply andb_prop in E as [E1 E2].
  apply N.leb_le in E1. apply N.leb_le in E2.
  rewrite (alnum_not_punctuation c), (alnum_not_punctuation (c + 32)%N);
    [reflexivity | |]; apply alnum_of_range; lia.
Qed.

(** X19.  A description of one word that holds a hyphen, with no
    punctuation at its ends, gives that word in lower case followed by
    [.html], whatever other characters the word holds: the test for
    alphanumeric characters does not apply to a word with a hyphen. *)
Theorem hyphenated_word_is_kept_whole (U : unicode) (w : str) :
  right_on_ascii U ->
  is_ascii w ->
  Forall (fun c => isspace c = false) w ->
  mem HYPHEN w = true ->
  (forall c t, w = c :: t -> mem c PUNCTUATION = false) ->
  (forall t c, w = t ++ [c] -> mem c PUNCTUATION = false) ->
  generate_filename U w = map Re.fold w ++ lit ".html".
Proof.
  intros HU Hascii Hplain Hhyphen Hfirst Hlast.
  assert (Hne : w <> []) by (destruct w; [discriminate | discriminate]).
  rewrite (generate_filename_ascii U _ HU Hascii).
  unfold generate_filename.
  change (lower basic_latin w) with (map Re.fold w).
  assert (Hsplit : split (map Re.fold w) = [map Re.fold w]).
  { apply (split_join [map Re.fold w]). constructor; [|constructor].
    split.
    - destruct w; [contradiction | discriminate].
    - rewrite Forall_forall in *. intros c Hc.
      apply in_map_iff in Hc as (c0 & <- & Hc0).
      rewrite isspace_fold. now apply Hplain. }
  rewrite Hsplit. simpl firstn.
  assert (Hkeep : keeps basic_latin (map Re.fold w) = true).
  { unfold keeps. apply orb_true_intro. right.
    unfold mem in *. apply existsb_exists in Hhyphen as (x & Hx & Ex).
    apply N.eqb_eq in Ex. subst x.
    apply existsb_exists. exists HYPHEN. split; [|reflexivity].
    change HYPHEN with (Re.fold HYPHEN) at 1. now apply in_map. }
  simpl filter. rewrite Hkeep. simpl map. simpl join.
  f_equal. apply strip_by_ends.
  - intros c t E. destruct w as [|c0 t0]; [discriminate|].
    simpl in E. injection E as <- _.
    rewrite punctuation_fold. now apply (Hfirst c0 t0).
  - intros t c E.
    destruct (rev w) as [|c0 r] eqn:Er.
    { apply (f_equal (@rev char)) in Er. rewrite rev_involutive in Er.
      contradiction. }
    apply (f_equal (@rev char)) in Er. rewrite rev_involutive in Er.
    simpl in Er. rewrite Er, map_app in E. simpl in E.
    apply app_inj_tail in E as [_ <-].
    rewrite punctuation_fold. now apply (Hlast (rev r) c0).
Qed.

Lemma hyphenated_word_is_kept_whole_witness :
  generate_filename basic_latin (lit "/tmp/To-Do") = lit "/tmp/to-do.html".
Proof.
  apply (hyphenated_word_is_kept_whole basic_latin (lit "/tmp/To-Do")).
  - split; intros; reflexivity.
  - unfold is_ascii. vm_compute. repeat constructor.
  - repeat constructor.
  - reflexivity.
  - intros c t E. injection E as <- _. reflexivity.
  - intros t c E.
    change (lit "/tmp/To-Do") with (lit "/tmp/To-D" ++ [111%N]) in E.
    apply app_inj_tail in E as [_ <-]. reflexivity.
Defined.

(* ================================================================== *)
(** ** Rule priority *)
(* ================================================================== *)

(** A match that [search] returns begins at the leftmost place where
    the pattern matches. *)
Lemma search_sound_first (r : Re.regex) (s g : str) :
  Re.search fl r s = Some g ->
  exists pre rest,
    s = pre ++ rest
    /\ Re.run fl r rest no_capture = Some g
    /\ forall k, (k < List.length pre)%nat ->
                 Re.run fl r (skipn k s) no_capture = None.
Proof.
  induction s as [|x s IH]; simpl; intros H.
  - destruct (Re.run fl r [] no_capture) eqn:E; [|discriminate].
    injection H as ->. exists [], []. repeat split; trivial.
    intros k Hk. simpl in Hk. lia.
  - destruct (Re.run fl r (x :: s) no_capture) eqn:E.
    + injection H as ->. exists [], (x :: s). repeat split; trivial.
      intros k Hk. simpl in Hk. lia.
    + destruct (IH H) as (pre & rest & -> & Hr & Hnone).
      exists (x :: pre), rest. repeat split; trivial.
      intros [|k] Hk; [exact E|]. simpl. apply Hnone. simpl in Hk. lia.
Qed.

(** What [.*?] skips is as short as can be: the rest of the pattern
    matches at no earlier place. *)
Lemma run_lazy_sound_first (r : Re.regex) (s : str) (st : Re.capture)
      (g : str) :
  Re.run fl (Re.LazyDotStar :: r) s st = Some g ->
  exists skipped rest,
    s = skipped ++ rest
    /\ Re.run fl r rest (consume_all skipped st) = Some g
    /\ forall k, (k < List.length skipped)%nat ->
                 Re.run fl r (skipn k s)
                        (consume_all (firstn k skipped) st) = None.
Proof.
  revert st. induction s as [|x s IH]; intros st H.
  - rewrite run_lazy_nil in H. exists [], []. repeat split; trivial.
    intros k Hk. simpl in Hk. lia.
  - rewrite run_lazy_cons in H.
    destruct (Re.run fl r (x :: s) st) as [g'|] eqn:E.
    + injection H as ->. exists [], (x :: s). repeat split; trivial.
      intros k Hk. simpl in Hk. lia.
    + destruct (IH _ H) as (skipped & rest & -> & Hr & Hnone).
      exists (x :: skipped), rest. repeat split; trivial.
      intros [|k] Hk; [exact E|]. simpl. apply Hnone. simpl in Hk. lia.
Qed.

(** An occurrence in [a] begins at some place of [a] and ends within
    it. *)
Lemma contains_occurrence (p a : str) :
  contains p a = true ->
  exists k, (k + List.length p <= List.length a)%nat
            /\ forall b, startswith p (skipn k (a ++ b)) = true.
Proof.
  intros H. apply contains_split in H as (pre & post & ->).
  exists (List.length pre). split.
  - rewrite !length_app. lia.
  - intros b. rewrite <- !app_assoc, skipn_app, skipn_all, Nat.sub_diag.
    simpl. apply startswith_app.
Qed.

Lemma ci_contains_occurrence (p a : str) :
  ci_contains p a = true ->
  exists k, (k + List.length p <= List.length a)%nat
            /\ forall b, ci_startswith p (skipn k (a ++ b)) = true.
Proof.
  unfold ci_contains, ci_startswith. intros H.
  apply contains_occurrence in H as (k & Hk & Hs).
  rewrite !length_map in Hk. exists k. split; [exact Hk|].
  intros b. rewrite <- skipn_map, map_app. apply Hs.
Qed.

(** What rule 1 returns is the content of the leftmost fence labeled
    as HTML, from its opening line to the first closing fence line. *)
Lemma search_html_fence_canonical (output g : str) :
  Re.search fl pattern_html_fence output = Some g ->
  exists pre opener post,
    output = pre ++ opener ++ g ++ FENCE_CLOSE ++ post
    /\ ci_eq opener HTML_FENCE_OPEN
    /\ ci_contains HTML_FENCE_OPEN (pre ++ firstn 7 opener) = false
    /\ contains FENCE_CLOSE (g ++ firstn 3 FENCE_CLOSE) = false.
Proof.
  intros H.
  apply search_sound_first in H as (pre & rest & Hout & Hrun & Hnone).
  unfold pattern_html_fence in Hrun.
  change (lit "```html" ++ [nl]) with HTML_FENCE_OPEN in Hrun.
  change (nl :: FENCE) with FENCE_CLOSE in Hrun.
  rewrite run_chars in Hrun.
  destruct (ci_startswith HTML_FENCE_OPEN rest) eqn:E; [|discriminate].
  apply ci_startswith_split in E as [Ho Hrest].
  rewrite consume_all_closed in Hrun.
  set (opener := firstn (List.length HTML_FENCE_OPEN) rest) in *.
  set (rest2 := skipn (List.length HTML_FENCE_OPEN) rest) in *.
  change (Re.run fl ([Re.GroupOpen; Re.LazyDotStar; Re.GroupClose]
                       ++ Re.chars FENCE_CLOSE) rest2 no_capture)
    with (Re.run fl (Re.LazyDotStar :: Re.GroupClose :: Re.chars FENCE_CLOSE)
                 rest2 {| Re.recording := true; Re.grp := [] |}) in Hrun.
  apply run_lazy_sound_first in Hrun
    as (skipped & rest3 & Hrest2 & Hclose & Hearlier).
  rewrite consume_all_open in Hclose.
  apply run_close_fence in Hclose as [Hg [post Hrest3]].
  rewrite app_nil_r, rev_involutive in Hg. subst skipped.
  assert (Hlen : List.length opener = 8%nat).
  { apply ci_eq_length in Ho. exact Ho. }
  assert (Hwhole : output = pre ++ opener ++ g ++ FENCE_CLOSE ++ post).
  { rewrite Hout, Hrest, Hrest2, Hrest3. reflexivity. }
  exists pre, opener, post. split; [exact Hwhole|]. split; [exact Ho|].
  split.
  - (* an earlier opening line would have been matched *)
    destruct (ci_contains HTML_FENCE_OPEN (pre ++ firstn 7 opener)) eqn:Ec;
      [|reflexivity].
    exfalso.
    apply ci_contains_occurrence in Ec as (k & Hk & Hs).
    rewrite length_app, length_firstn, Hlen in Hk.
    change (List.length HTML_FENCE_OPEN) with 8%nat in Hk.
    assert (Hkpre : (k < List.length pre)%nat) by lia.
    specialize (Hs (skipn 7 opener ++ g ++ FENCE_CLOSE ++ post)).
    replace ((pre ++ firstn 7 opener)
             ++ skipn 7 opener ++ g ++ FENCE_CLOSE ++ post)
      with output in Hs
      by (rewrite Hwhole, <- !app_assoc;
          rewrite (app_assoc (firstn 7 opener)), firstn_skipn;
          reflexivity).
    apply ci_startswith_split in Hs as [Hok Hsplit].
    assert (Htail : skipn (List.length HTML_FENCE_OPEN) (skipn k output)
                    = skipn (k + 8) (pre ++ opener ++ g)
                      ++ FENCE_CLOSE ++ post).
    { change (List.length HTML_FENCE_OPEN) with 8%nat.
      rewrite skipn_skipn, Nat.add_comm, Hwhole.
      replace (pre ++ opener ++ g ++ FENCE_CLOSE ++ post)
        with ((pre ++ opener ++ g) ++ FENCE_CLOSE ++ post)
        by now rewrite <- !app_assoc.
      rewrite skipn_app.
      replace (k + 8 - List.length (pre ++ opener ++ g))%nat with 0%nat
        by (rewrite !length_app; lia).
      reflexivity. }
    rewrite Htail in Hsplit.
    apply (run_html_fence_complete _ (skipn (k + 8) (pre ++ opener ++ g))
             post Hok).
    rewrite <- Hsplit. now apply Hnone.
  - (* an earlier closing line would have ended the match *)
    destruct (contains FENCE_CLOSE (g ++ firstn 3 FENCE_CLOSE)) eqn:Ec;
      [|reflexivity].
    exfalso.
    apply contains_occurrence in Ec as (k & Hk & Hs).
    rewrite length_app in Hk. simpl in Hk.
    assert (Hkg : (k < List.length g)%nat) by lia.
    specialize (Hs (skipn 3 FENCE_CLOSE ++ post)).
    replace ((g ++ firstn 3 FENCE_CLOSE) ++ skipn 3 FENCE_CLOSE ++ post)
      with rest2 in Hs
      by (rewrite Hrest2, Hrest3, <- !app_assoc; reflexivity).
    apply startswith_split in Hs.
    specialize (Hearlier k Hkg). rewrite consume_all_open in Hearlier.
    rewrite Hs, run_close_fence_app in Hearlier. discriminate.
Qed.

(** C6.  When the text holds a fence labeled as HTML and also a bare
    span from a doctype token to a closing html tag, the extractor
    returns the content of the labeled fence, stripped, and nothing
    else: the content of the leftmost fence labeled as HTML, from its
    opening line to the first closing fence line after it.  The bare
    span plays no part in the result. *)
Theorem labeled_fence_has_priority (output content span : str) :
  labeled_fence_content output content ->
  bare_span output span ->
  exists pre opener content' post,
    output = pre ++ opener ++ content' ++ FENCE_CLOSE ++ post
    /\ ci_eq opener HTML_FENCE_OPEN
    /\ ci_contains HTML_FENCE_OPEN (pre ++ firstn 7 opener) = false
    /\ contains FENCE_CLOSE (content' ++ firstn 3 FENCE_CLOSE) = false
    /\ extract_html_from_output output = Some (strip content').
Proof.
  intros Hfence _.
  apply search_html_fence_complete in Hfence.
  destruct (Re.search search_flags pattern_html_fence output)
    as [content'|] eqn:E; [|congruence].
  destruct (search_html_fence_canonical output content' E)
    as (pre & opener & post & Hout & Ho & Hfirst & Hclose).
  exists pre, opener, content', post.
  repeat split; try assumption.
  now apply extract_html_fence.
Qed.

Lemma labeled_fence_has_priority_witness :
  let output :=
    lit "Page: <!DOCTYPE html><html>old</html> and" ++ [nl]
    ++ fenced (lit "<p>new</p>") ++ [nl]
    ++ lit "<!DOCTYPE html><html>late</html>" ++ FENCE_CLOSE in
  extract_html_from_output output = Some (lit "<p>new</p>")
  /\ exists pre opener content' post,
       output = pre ++ opener ++ content' ++ FENCE_CLOSE ++ post
       /\ ci_eq opener HTML_FENCE_OPEN
       /\ ci_contains HTML_FENCE_OPEN (pre ++ firstn 7 opener) = false
       /\ contains FENCE_CLOSE (content' ++ firstn 3 FENCE_CLOSE) = false
       /\ extract_html_from_output output = Some (strip content').
Proof.
  split; [vm_compute; reflexivity|].
  apply (labeled_fence_has_priority _ (lit "<p>new</p>")
           (lit "<!DOCTYPE html><html>old</html>")).
  - exists (lit "Page: <!DOCTYPE html><html>old</html> and" ++ [nl]),
      HTML_FENCE_OPEN,
      ([nl] ++ lit "<!DOCTYPE html><html>late</html>" ++ FENCE_CLOSE).
    split; reflexivity.
  - exists (lit "Page: "), DOCTYPE, (lit "<html>old"), END_HTML,
      (lit " and" ++ [nl] ++ fenced (lit "<p>new</p>") ++ [nl]
       ++ lit "<!DOCTYPE html><html>late</html>" ++ FENCE_CLOSE).
    repeat split; reflexivity.
Defined.
